(** * bfdb: a command-line debugger for brainfuck

    Shallow embedding of the compiler ([compile]), the instruction
    interpreter ([dbg_interpret]) and the debugger actions ([dbg_load],
    [dbg_run], [dbg_next], [dbg_jump], ...) of bfdb, followed by the
    properties of the design document that concern them.

    The main development follows the most complete revision of the source
    (the one with [to_int], [compile_error], [dbg_next(int count)] and the
    [tape] command).  Module [BfdbC] embeds what [bfdb.c] does differently:
    its [compile], which has no [compile_error], its [dbg_next] without a
    count, and its commands that call [strtol] without [to_int].
    [dbg_interpret], [dbg_run], [dbg_jump], [dbg_print] and the text of
    [dbg_load] are the same in both.

    C data is modelled as follows.
    - [unsigned short] and [unsigned int] values are integers of [Z]; each
      store into such a variable goes through [ushort] or [uint], the
      wrap-around of the type.
    - A C array is a total map from indices to values; [upd] is the store
      [a[i] = v].  Bounds are not part of the map: that the interpreter stays
      inside the tape is a theorem, not an assumption.
    - [int line], [int col] are unbounded integers (signed overflow is
      undefined in C and would need a source of 2^31 characters).
    - [stdout] and [stderr] are one list of events, oldest first; [stdin] is a
      list of bytes; [fopen] looks a path up in a map from paths to file
      contents. *)

From Stdlib Require Import ZArith List String Ascii Bool Lia.
Import ListNotations.

Open Scope Z_scope.

(** ** Constants *)

Definition PROGRAM_SIZE : Z := 4096.
Definition STACK_SIZE : Z := 512.
Definition DATA_SIZE : Z := 65535.

Definition OP_END : Z := 0.
Definition OP_INC : Z := 1.
Definition OP_DEC : Z := 2.
Definition OP_ADD : Z := 3.
Definition OP_SUB : Z := 4.
Definition OP_OUT : Z := 5.
Definition OP_IN : Z := 6.
Definition OP_JMP : Z := 7.
Definition OP_RET : Z := 8.

(** Conversion to [unsigned short] (16 bits) and [unsigned int] (32 bits). *)
Definition ushort (z : Z) : Z := z mod 65536.
Definition uint (z : Z) : Z := z mod 4294967296.

(** ** Arrays *)

Definition upd {A : Type} (a : Z -> A) (i : Z) (v : A) : Z -> A :=
  fun k => if k =? i then v else a k.

(** ** Intermediate representation *)

Record instruction_t : Type := mk_instruction {
  operator : Z;
  operand : Z
}.

Definition set_operator (i : instruction_t) (v : Z) : instruction_t :=
  {| operator := ushort v; operand := operand i |}.

Definition set_operand (i : instruction_t) (v : Z) : instruction_t :=
  {| operator := operator i; operand := ushort v |}.

Record program_t : Type := mk_program {
  instructions : Z -> instruction_t;
  instr_count : Z;
  stack : Z -> Z;
  esp : Z
}.

(** [prog->instructions[i].operator = v] and [prog->instructions[i].operand = v] *)
Definition store_operator (prog : program_t) (i v : Z) : program_t :=
  {| instructions := upd (instructions prog) i (set_operator (instructions prog i) v);
     instr_count := instr_count prog;
     stack := stack prog;
     esp := esp prog |}.

Definition store_operand (prog : program_t) (i v : Z) : program_t :=
  {| instructions := upd (instructions prog) i (set_operand (instructions prog i) v);
     instr_count := instr_count prog;
     stack := stack prog;
     esp := esp prog |}.

(** [prog->stack[prog->esp++] = v] *)
Definition push (prog : program_t) (v : Z) : program_t :=
  {| instructions := instructions prog;
     instr_count := instr_count prog;
     stack := upd (stack prog) (esp prog) (ushort v);
     esp := uint (esp prog + 1) |}.

(** [jmp_pc = prog->stack[--prog->esp]]: the program after the decrement and
    the value read. *)
Definition pop (prog : program_t) : program_t * Z :=
  let e := uint (esp prog - 1) in
  ({| instructions := instructions prog;
      instr_count := instr_count prog;
      stack := stack prog;
      esp := e |},
   stack prog e).

Definition set_instr_count (prog : program_t) (v : Z) : program_t :=
  {| instructions := instructions prog;
     instr_count := ushort v;
     stack := stack prog;
     esp := esp prog |}.

(** [program_t program = { .instr_count = 0, .esp = 0 }]: static storage, all
    other bytes zero. *)
Definition program_init : program_t :=
  {| instructions := fun _ => {| operator := 0; operand := 0 |};
     instr_count := 0;
     stack := fun _ => 0;
     esp := 0 |}.

(** ** Output *)

Inductive compile_msg : Type :=
| LoopCountExceeds      (* "loop count exceeds bfdb's capacity (%d)" *)
| UnmatchedClose        (* "unmatched ']'" *)
| InstrCountExceeds.    (* "instruction count exceeds bfdb's capacity (%d)" *)

Inductive runtime_msg : Type :=
| IncOutOfRange         (* "trying to increment the data pointer out of range (%d)" *)
| DecBelowZero.         (* "trying to decrement the data pointer below 0" *)

Inductive event : Type :=
| CompileError (line col : Z) (m : compile_msg)
    (* compile_error: "%d:%d: compilation error: ...", "Compilation exited with error." *)
| RuntimeError (m : runtime_msg) (instr_no op dptr cell : Z)
    (* dbg_runtime_error: "Runtime error: ... At instruction %d ('%s'). $[$ptr: %d]: %d.",
       "Brainfuck exited with error." *)
| ExitedNormally        (* "Brainfuck exited normally." *)
| Putchar (c : Z)       (* putchar *)
| Reading (file : string)            (* "Reading %s..." *)
| CouldNotRead (file : string)       (* "Could not read from %s." *)
| NoSuchFile (file : string)         (* "%s: No such file or directory." *)
| NoFileSpecified                    (* "No brainfuck file specified, use 'file'." *)
| NotBeingRun                        (* "The program is not being run." *)
| InvalidNumeric                     (* "error: '%s' invalid numeric argument." *)
| NegativeNotAllowed                 (* "error: '%s' negative not allowed." *)
| CountNegative (count : Z)          (* "%d: Count has to be greater than 0!" *)
| JumpNeedsArgument                  (* "error: 'jump' takes exactly one instruction index argument." *)
| JumpNotInRange (index count : Z)   (* "%d: Not in range of program's instructions [1..%d]" *)
| PrintDataptr (dptr : Z)            (* "$ptr: %d" *)
| PrintCell (index cell : Z)         (* "$[%d]: %d." with or without the character *)
| PrintNotInRange (index : Z)        (* "%d: Not in range [0..%d)." *)
| FileNeedsArgument                  (* "error: 'file' takes exactly one file path argument." *)
| PrintTape (cells : list (bool * Z * Z)). (* one entry per printed cell: current?, index, value *)

(** ** Compilation *)

(** Outcome of one iteration of the [while] body of [compile]. *)
Inductive iteration : Type :=
| Next (prog : program_t) (pc : Z)
| ReturnFalse (prog : program_t) (log : list event).

(** The [switch (c)] of [compile] followed by [pc++]; the cases are tested in
    the order of the source (they are disjoint). *)
Definition compile_char (c : ascii) (prog : program_t) (pc line col : Z) : iteration :=
  if Ascii.eqb c ">" then Next (store_operator prog pc OP_INC) (ushort (pc + 1))
  else if Ascii.eqb c "<" then Next (store_operator prog pc OP_DEC) (ushort (pc + 1))
  else if Ascii.eqb c "+" then Next (store_operator prog pc OP_ADD) (ushort (pc + 1))
  else if Ascii.eqb c "-" then Next (store_operator prog pc OP_SUB) (ushort (pc + 1))
  else if Ascii.eqb c "." then Next (store_operator prog pc OP_OUT) (ushort (pc + 1))
  else if Ascii.eqb c "," then Next (store_operator prog pc OP_IN) (ushort (pc + 1))
  else if Ascii.eqb c "[" then
    let prog := store_operator prog pc OP_JMP in
    if esp prog =? STACK_SIZE
    then ReturnFalse prog [CompileError line col LoopCountExceeds]
    else Next (push prog pc) (ushort (pc + 1))
  else if Ascii.eqb c "]" then
    if esp prog =? 0
    then ReturnFalse prog [CompileError line col UnmatchedClose]
    else
      let (prog, jmp_pc) := pop prog in
      let prog := store_operator prog pc OP_RET in
      let prog := store_operand prog pc jmp_pc in
      let prog := store_operator prog jmp_pc pc in
      Next prog (ushort (pc + 1))
  else Next prog (ushort (ushort (pc - 1) + 1)).

Record compile_result : Type := mk_compile_result {
  c_ok : bool;
  c_prog : program_t;
  c_log : list event
}.

(** The code after the [while] loop of [compile]. *)
Definition compile_finish (prog : program_t) (pc line col : Z) : compile_result :=
  if pc =? PROGRAM_SIZE
  then {| c_ok := false; c_prog := prog;
          c_log := [CompileError line col InstrCountExceeds] |}
  else if negb (esp prog =? 0)
  then {| c_ok := false; c_prog := prog; c_log := [] |}
  else {| c_ok := true;
          c_prog := set_instr_count (store_operator prog pc OP_END) (pc + 1);
          c_log := [] |}.

(** [while ((c = getc(fp)) != EOF && pc < PROGRAM_SIZE)]: the character is
    read before [pc] is tested. *)
Fixpoint compile_loop (src : string) (prog : program_t) (pc line col : Z)
  : compile_result :=
  match src with
  | EmptyString => compile_finish prog pc line col
  | String c rest =>
      if pc <? PROGRAM_SIZE
      then
        match compile_char c prog pc line col with
        | ReturnFalse prog log => {| c_ok := false; c_prog := prog; c_log := log |}
        | Next prog pc =>
            if Ascii.eqb c "010"
            then compile_loop rest prog pc (line + 1) 1
            else compile_loop rest prog pc line (col + 1)
        end
      else compile_finish prog pc line col
  end.

Definition compile (fp : string) (prog : program_t) : compile_result :=
  compile_loop fp prog 0 1 1.

(** ** Debugger state *)

Record runtime_t : Type := mk_runtime {
  running : bool;
  data : Z -> Z;
  pc : Z;
  ptr : Z
}.

(** The globals [program], [loaded] and [runtime], with the two standard
    streams the debugger uses. *)
Record bfdb : Type := mk_bfdb {
  program : program_t;
  loaded : bool;
  runtime : runtime_t;
  stdin : list Z;
  output : list event
}.

(** [runtime_t runtime = { .running = false, .pc = 0, .ptr = 0 }] *)
Definition runtime_init : runtime_t :=
  {| running := false; data := fun _ => 0; pc := 0; ptr := 0 |}.

Definition bfdb_init (input : list Z) : bfdb :=
  {| program := program_init; loaded := false; runtime := runtime_init;
     stdin := input; output := [] |}.

Definition set_runtime (st : bfdb) (rt : runtime_t) : bfdb :=
  {| program := program st; loaded := loaded st; runtime := rt;
     stdin := stdin st; output := output st |}.

Definition set_running (st : bfdb) (b : bool) : bfdb :=
  set_runtime st {| running := b; data := data (runtime st);
                    pc := pc (runtime st); ptr := ptr (runtime st) |}.

Definition set_pc (st : bfdb) (v : Z) : bfdb :=
  set_runtime st {| running := running (runtime st); data := data (runtime st);
                    pc := ushort v; ptr := ptr (runtime st) |}.

Definition set_ptr (st : bfdb) (v : Z) : bfdb :=
  set_runtime st {| running := running (runtime st); data := data (runtime st);
                    pc := pc (runtime st); ptr := uint v |}.

(** [runtime->data[runtime->ptr] = v] *)
Definition set_cell (st : bfdb) (v : Z) : bfdb :=
  set_runtime st {| running := running (runtime st);
                    data := upd (data (runtime st)) (ptr (runtime st)) (ushort v);
                    pc := pc (runtime st); ptr := ptr (runtime st) |}.

(** [runtime->data[runtime->ptr]] *)
Definition cell (st : bfdb) : Z := data (runtime st) (ptr (runtime st)).

Definition emit (st : bfdb) (e : event) : bfdb :=
  {| program := program st; loaded := loaded st; runtime := runtime st;
     stdin := stdin st; output := output st ++ [e] |}.

(** [getchar()]: the next byte of [stdin], or [EOF] (-1). *)
Definition getchar (st : bfdb) : bfdb * Z :=
  match stdin st with
  | [] => (st, -1)
  | c :: rest =>
      ({| program := program st; loaded := loaded st; runtime := runtime st;
          stdin := rest; output := output st |}, c)
  end.

(** ** Debugger actions *)

Definition dbg_runtime_error (st : bfdb) (m : runtime_msg) : bfdb :=
  let operator := operator (instructions (program st) (pc (runtime st))) in
  let st := emit st (RuntimeError m (pc (runtime st) + 1) operator
                        (ptr (runtime st)) (cell st)) in
  set_running st false.

Definition dbg_run (st : bfdb) : bfdb :=
  set_runtime st {| running := true; data := fun _ => 0; pc := 0; ptr := 0 |}.

(** [runtime->pc++; return false;] *)
Definition next_pc (st : bfdb) : bfdb * bool :=
  (set_pc st (pc (runtime st) + 1), false).

(** The function is always called as [dbg_interpret(&runtime, ...)], so its
    parameter [runtime] and the global [runtime] written by
    [dbg_runtime_error] are the same object.  A [switch] without [default]
    does nothing on an operator above [OP_RET]. *)
Definition dbg_interpret (st : bfdb) (instruction : instruction_t) : bfdb * bool :=
  if operator instruction =? OP_END then
    (set_running (emit st ExitedNormally) false, true)
  else if operator instruction =? OP_INC then
    if uint (ptr (runtime st) + 1) <? DATA_SIZE
    then next_pc (set_ptr st (ptr (runtime st) + 1))
    else (dbg_runtime_error st IncOutOfRange, true)
  else if operator instruction =? OP_DEC then
    if ptr (runtime st) >? 0
    then next_pc (set_ptr st (ptr (runtime st) - 1))
    else (dbg_runtime_error st DecBelowZero, true)
  else if operator instruction =? OP_ADD then
    next_pc (set_cell st (cell st + 1))
  else if operator instruction =? OP_SUB then
    next_pc (set_cell st (cell st - 1))
  else if operator instruction =? OP_OUT then
    next_pc (emit st (Putchar (cell st mod 256)))
  else if operator instruction =? OP_IN then
    let (st, c) := getchar st in
    next_pc (set_cell st (uint c))
  else if operator instruction =? OP_JMP then
    if cell st =? 0
    then next_pc (set_pc st (operand instruction))
    else next_pc st
  else if operator instruction =? OP_RET then
    if negb (cell st =? 0)
    then next_pc (set_pc st (operand instruction))
    else next_pc st
  else next_pc st.

(** [dbg_interpret(&runtime, program.instructions[runtime.pc])] *)
Definition step (st : bfdb) : bfdb * bool :=
  dbg_interpret st (instructions (program st) (pc (runtime st))).

(** The [for] loop of [dbg_next]: [n] iterations are left, [ret] is the
    value of the variable of that name. *)
Fixpoint dbg_next_loop (n : nat) (st : bfdb) (ret : bool) : bfdb * bool :=
  match n with
  | O => (st, ret)
  | S n' =>
      let (st', ret') := step st in
      if ret' then (st', ret') else dbg_next_loop n' st' ret'
  end.

Definition dbg_next (st : bfdb) (count : Z) : bfdb * bool :=
  if count <? 0
  then (emit st (CountNegative count), false)
  else dbg_next_loop (Z.to_nat count) st false.

Definition dbg_jump (st : bfdb) (index : Z) : bfdb :=
  if (index <? 1) || (index >? instr_count (program st))
  then emit st (JumpNotInRange index (instr_count (program st)))
  else set_pc st (index - 1).

Definition dbg_print_dataptr (st : bfdb) : bfdb :=
  emit st (PrintDataptr (ptr (runtime st))).

Definition dbg_print (st : bfdb) (index : Z) : bfdb :=
  if (index <? 0) || (index >=? DATA_SIZE)
  then emit st (PrintNotInRange index)
  else emit st (PrintCell index (data (runtime st) index)).

(** The cells [runtime.ptr - 4 .. runtime.ptr + 4] that lie on the tape. *)
Definition dbg_print_tape (st : bfdb) : bfdb :=
  let window :=
    flat_map (fun dptr =>
                let p := ptr (runtime st) + dptr in
                if (p <? 0) || (p >=? DATA_SIZE) then []
                else [(dptr =? 0, p, data (runtime st) p)])
             [-4; -3; -2; -1; 0; 1; 2; 3; 4] in
  emit st (PrintTape window).

(** [fopen(file_name, "r")] succeeds on the paths the map knows. *)
Definition filesystem : Type := string -> option string.

Definition dbg_load (fs : filesystem) (st : bfdb) (file_name : string) : bfdb :=
  let st := set_running st false in
  match fs file_name with
  | Some fp =>
      let st := emit st (Reading file_name) in
      let r := compile fp (program st) in
      let st := {| program := c_prog r; loaded := c_ok r; runtime := runtime st;
                   stdin := stdin st; output := output st ++ c_log r |} in
      if negb (loaded st) then emit st (CouldNotRead file_name) else st
  | None => emit st (NoSuchFile file_name)
  end.

(** ** Commands *)

(** A numeric argument as [to_int] sees it: [as_int] is
    [(int) strtol(str, &endptr, base)] and [converted] is [endptr != str]. *)
Record numeric : Type := mk_numeric {
  as_int : Z;
  converted : bool
}.

Definition to_int (st : bfdb) (str : numeric) (allow_neg : bool) : bfdb * bool :=
  if negb (converted str) then (emit st InvalidNumeric, false)
  else if negb allow_neg && (as_int str <? 0) then (emit st NegativeNotAllowed, false)
  else (st, true).

Definition cmd_file (fs : filesystem) (st : bfdb) (file_name : option string) : bfdb :=
  match file_name with
  | Some f => dbg_load fs st f
  | None => emit st FileNeedsArgument
  end.

Definition cmd_run (st : bfdb) : bfdb :=
  if loaded st then dbg_run st else emit st NoFileSpecified.

Definition cmd_next (st : bfdb) (count : option numeric) : bfdb :=
  if running (runtime st) then
    match count with
    | Some c =>
        let (st, ok) := to_int st c false in
        if ok then fst (dbg_next st (as_int c)) else st
    | None => fst (dbg_next st 1)
    end
  else emit st NotBeingRun.

Definition cmd_jump (st : bfdb) (index : option numeric) : bfdb :=
  if running (runtime st) then
    match index with
    | Some i =>
        let (st, ok) := to_int st i false in
        if ok then dbg_jump st (as_int i) else st
    | None => emit st JumpNeedsArgument
    end
  else emit st NotBeingRun.

(** [while (!dbg_next(1)) {}]: [None] when the loop has not ended within
    [fuel] iterations. *)
Fixpoint continue_loop (fuel : nat) (st : bfdb) : option bfdb :=
  match fuel with
  | O => None
  | S fuel' =>
      let (st', ret) := dbg_next st 1 in
      if ret then Some st' else continue_loop fuel' st'
  end.

Definition cmd_continue (fuel : nat) (st : bfdb) : option bfdb :=
  if running (runtime st) then continue_loop fuel st
  else Some (emit st NotBeingRun).

Definition cmd_dataptr (st : bfdb) : bfdb :=
  if running (runtime st) then dbg_print_dataptr st else emit st NotBeingRun.

Definition cmd_print (st : bfdb) (index : option numeric) : bfdb :=
  if running (runtime st) then
    match index with
    | Some i =>
        let (st, ok) := to_int st i false in
        if ok then dbg_print st (as_int i) else st
    | None => dbg_print st (ptr (runtime st))
    end
  else emit st NotBeingRun.

Definition cmd_tape (st : bfdb) : bfdb :=
  if running (runtime st) then dbg_print_tape st else emit st NotBeingRun.

(** ** The revision [bfdb.c]

    Its [compile] has no [compile_error]: every failure is a bare
    [return false], and the [']'] case writes the operator of both slots.
    [next] steps one instruction, and [jump] and [print] take the result of
    [strtol] as it is. *)

Module BfdbC.

Inductive iteration : Type :=
| Next (prog : program_t) (pc : Z)
| ReturnFalse (prog : program_t).

Definition compile_char (c : ascii) (prog : program_t) (pc : Z) : iteration :=
  if Ascii.eqb c ">" then Next (store_operator prog pc OP_INC) (ushort (pc + 1))
  else if Ascii.eqb c "<" then Next (store_operator prog pc OP_DEC) (ushort (pc + 1))
  else if Ascii.eqb c "+" then Next (store_operator prog pc OP_ADD) (ushort (pc + 1))
  else if Ascii.eqb c "-" then Next (store_operator prog pc OP_SUB) (ushort (pc + 1))
  else if Ascii.eqb c "." then Next (store_operator prog pc OP_OUT) (ushort (pc + 1))
  else if Ascii.eqb c "," then Next (store_operator prog pc OP_IN) (ushort (pc + 1))
  else if Ascii.eqb c "[" then
    let prog := store_operator prog pc OP_JMP in
    if esp prog =? STACK_SIZE
    then ReturnFalse prog
    else Next (push prog pc) (ushort (pc + 1))
  else if Ascii.eqb c "]" then
    if esp prog =? 0
    then ReturnFalse prog
    else
      let (prog, jmp_pc) := pop prog in
      let prog := store_operator prog pc OP_RET in
      let prog := store_operator prog pc jmp_pc in
      let prog := store_operator prog jmp_pc pc in
      Next prog (ushort (pc + 1))
  else Next prog (ushort (ushort (pc - 1) + 1)).

Definition compile_finish (prog : program_t) (pc : Z) : compile_result :=
  if negb (esp prog =? 0) || (pc =? PROGRAM_SIZE)
  then {| c_ok := false; c_prog := prog; c_log := [] |}
  else {| c_ok := true;
          c_prog := set_instr_count (store_operator prog pc OP_END) (pc + 1);
          c_log := [] |}.

Fixpoint compile_loop (src : string) (prog : program_t) (pc : Z) : compile_result :=
  match src with
  | EmptyString => compile_finish prog pc
  | String c rest =>
      if pc <? PROGRAM_SIZE
      then
        match compile_char c prog pc with
        | ReturnFalse prog => {| c_ok := false; c_prog := prog; c_log := [] |}
        | Next prog pc => compile_loop rest prog pc
        end
      else compile_finish prog pc
  end.

Definition compile (fp : string) (prog : program_t) : compile_result :=
  compile_loop fp prog 0.

Definition dbg_load (fs : filesystem) (st : bfdb) (file_name : string) : bfdb :=
  let st := set_running st false in
  match fs file_name with
  | Some fp =>
      let st := emit st (Reading file_name) in
      let r := compile fp (program st) in
      let st := {| program := c_prog r; loaded := c_ok r; runtime := runtime st;
                   stdin := stdin st; output := output st ++ c_log r |} in
      if negb (loaded st) then emit st (CouldNotRead file_name) else st
  | None => emit st (NoSuchFile file_name)
  end.

(** [bool dbg_next()] steps one instruction; [cmd_next] ignores its argument. *)
Definition dbg_next (st : bfdb) : bfdb * bool := step st.

Definition cmd_next (st : bfdb) : bfdb :=
  if running (runtime st) then fst (dbg_next st) else emit st NotBeingRun.

(** [int i = (int) strtol(index, NULL, 10); dbg_jump(&program, i);] *)
Definition cmd_jump (st : bfdb) (index : option numeric) : bfdb :=
  if running (runtime st) then
    match index with
    | Some i => dbg_jump st (as_int i)
    | None => emit st JumpNeedsArgument
    end
  else emit st NotBeingRun.

Fixpoint continue_loop (fuel : nat) (st : bfdb) : option bfdb :=
  match fuel with
  | O => None
  | S fuel' =>
      let (st', ret) := dbg_next st in
      if ret then Some st' else continue_loop fuel' st'
  end.

Definition cmd_continue (fuel : nat) (st : bfdb) : option bfdb :=
  if running (runtime st) then continue_loop fuel st
  else Some (emit st NotBeingRun).

Definition cmd_print (st : bfdb) (index : option numeric) : bfdb :=
  if running (runtime st) then
    match index with
    | Some i => dbg_print st (as_int i)
    | None => dbg_print st (ptr (runtime st))
    end
  else emit st NotBeingRun.

End BfdbC.

(** The operator and operand stored in a slot. *)
Definition slot (p : program_t) (i : Z) : Z * Z :=
  (operator (instructions p i), operand (instructions p i)).

(** A file system given by the list of its files. *)
Definition files (l : list (string * string)) : filesystem :=
  fun name =>
    match find (fun kv => String.eqb (fst kv) name) l with
    | Some kv => Some (snd kv)
    | None => None
    end.

(** * Vocabulary of the properties *)

(** An instruction faulted: [dbg_interpret] reported a runtime error. *)
Definition faults (st : bfdb) (instruction : instruction_t) (m : runtime_msg) : Prop :=
  dbg_interpret st instruction = (dbg_runtime_error st m, true).

(** The instruction is a jump whose condition holds. *)
Definition jump_taken (st : bfdb) (instruction : instruction_t) : bool :=
  ((operator instruction =? OP_JMP) && (cell st =? 0))
  || ((operator instruction =? OP_RET) && negb (cell st =? 0)).

(** The program counter the instruction leaves before [runtime->pc++]. *)
Definition pc_of_instruction (st : bfdb) (instruction : instruction_t) : Z :=
  if jump_taken st instruction then ushort (operand instruction) else pc (runtime st).

(** The state after [n] instructions, each executed from the current program
    counter. *)
Fixpoint steps (n : nat) (st : bfdb) : bfdb :=
  match n with
  | O => st
  | S n' => steps n' (fst (step st))
  end.

(** The [n]-th instruction from [st] is the first one that halts or faults. *)
Definition stops_at (st : bfdb) (n : nat) : Prop :=
  (1 <= n)%nat
  /\ snd (step (steps (n - 1) st)) = true
  /\ forall m, (m < n - 1)%nat -> snd (step (steps m st)) = false.

(** None of the first [k] instructions from [st] halts or faults. *)
Definition runs_through (st : bfdb) (k : nat) : Prop :=
  forall m, (m < k)%nat -> snd (step (steps m st)) = false.

(** The debugger states that a session can be in: the states between two
    commands, and the states between two instructions inside [next] and
    [continue].  The constructors cover the commands of both revisions. *)
Inductive reachable : bfdb -> Prop :=
| reach_init input : reachable (bfdb_init input)
| reach_file fs st file_name :
    reachable st -> reachable (cmd_file fs st file_name)
| reach_file_bfdb_c fs st file_name :
    reachable st -> reachable (BfdbC.dbg_load fs st file_name)
| reach_run st :
    reachable st -> reachable (cmd_run st)
| reach_step st :
    reachable st -> reachable (fst (step st))
| reach_next st count :
    reachable st -> reachable (cmd_next st count)
| reach_jump st index :
    reachable st -> reachable (cmd_jump st index)
| reach_next_bfdb_c st :
    reachable st -> reachable (BfdbC.cmd_next st)
| reach_jump_bfdb_c st index :
    reachable st -> reachable (BfdbC.cmd_jump st index)
| reach_continue st fuel st' :
    reachable st -> cmd_continue fuel st = Some st' -> reachable st'
| reach_continue_bfdb_c st fuel st' :
    reachable st -> BfdbC.cmd_continue fuel st = Some st' -> reachable st'
| reach_dataptr st :
    reachable st -> reachable (cmd_dataptr st)
| reach_print st index :
    reachable st -> reachable (cmd_print st index)
| reach_print_bfdb_c st index :
    reachable st -> reachable (BfdbC.cmd_print st index)
| reach_tape st :
    reachable st -> reachable (cmd_tape st).

(** The index of the cell of [runtime->data] that [dbg_interpret] reads or
    writes: [OP_ADD], [OP_SUB], [OP_OUT], [OP_IN], [OP_JMP] and [OP_RET] use
    [data[ptr]], and so does the message of [dbg_runtime_error] on a fault of
    [OP_INC] or [OP_DEC]. *)
Definition accessed_cell (st : bfdb) (instruction : instruction_t) : option Z :=
  if operator instruction =? OP_END then None
  else if operator instruction =? OP_INC then
    if uint (ptr (runtime st) + 1) <? DATA_SIZE then None else Some (ptr (runtime st))
  else if operator instruction =? OP_DEC then
    if ptr (runtime st) >? 0 then None else Some (ptr (runtime st))
  else if (operator instruction =? OP_ADD) || (operator instruction =? OP_SUB)
          || (operator instruction =? OP_OUT) || (operator instruction =? OP_IN)
          || (operator instruction =? OP_JMP) || (operator instruction =? OP_RET)
  then Some (ptr (runtime st))
  else None.

Definition on_tape (st : bfdb) : Prop := 0 <= ptr (runtime st) < DATA_SIZE.

(** [fopen] fails, or [compile] returns [false]. *)
Definition load_fails (fs : filesystem) (st : bfdb) (file_name : string) : bool :=
  match fs file_name with
  | None => true
  | Some fp => negb (c_ok (compile fp (program st)))
  end.

(** What the design document says of a failed [load]: the session is marked
    neither loaded nor running, and the program and the runtime are left as
    they were. *)
Definition failed_load_keeps_program (fs : filesystem) (st : bfdb) (file_name : string) : Prop :=
  load_fails fs st file_name = true ->
  let st' := dbg_load fs st file_name in
  loaded st' = false
  /\ running (runtime st') = false
  /\ program st' = program st
  /\ data (runtime st') = data (runtime st)
  /\ pc (runtime st') = pc (runtime st)
  /\ ptr (runtime st') = ptr (runtime st).

Definition iteration_prog (it : iteration) : program_t :=
  match it with
  | Next prog _ => prog
  | ReturnFalse prog _ => prog
  end.

Definition bfdb_c_iteration_prog (it : BfdbC.iteration) : program_t :=
  match it with
  | BfdbC.Next prog _ => prog
  | BfdbC.ReturnFalse prog => prog
  end.

Definition example_files : filesystem :=
  files [("pair.bf", "[]"); ("open.bf", "["); ("close.bf", "]");
         ("plus.bf", "+"); ("loop.bf", "+[]"); ("skip.bf", ">>[++++]");
         ("bad.bf", "-["); ("demo.bf", "++>+<-."); ("under.bf", "<")]%string.

(** The session after [file name] typed at the first prompt. *)
Definition fresh_load (file_name : string) : bfdb :=
  dbg_load example_files (bfdb_init []) file_name.

(** The session after [file demo.bf] and [run]. *)
Definition demo_running : bfdb := cmd_run (fresh_load "demo.bf").

(** The line and column reached from [(line, col)] after the characters of
    [s]: a newline starts the next line at column 1, any other character
    moves one column right. *)
Fixpoint position_after (s : string) (line col : Z) : Z * Z :=
  match s with
  | EmptyString => (line, col)
  | String c rest =>
      if Ascii.eqb c "010"
      then position_after rest (line + 1) 1
      else position_after rest line (col + 1)
  end.

(** The 1-based line and column of the character that follows the prefix
    [pre] of a file. *)
Definition position_of (pre : string) : Z * Z := position_after pre 1 1.

(** [instr_count] is a value of its type, [unsigned short]. *)
Definition count_in_range (st : bfdb) : Prop :=
  0 <= instr_count (program st) < 65536.

(** ** Vocabulary of the further properties *)

(** The eight characters that [compile] turns into an instruction. *)
Definition is_glyph (c : ascii) : bool :=
  Ascii.eqb c ">" || Ascii.eqb c "<" || Ascii.eqb c "+" || Ascii.eqb c "-"
  || Ascii.eqb c "." || Ascii.eqb c "," || Ascii.eqb c "[" || Ascii.eqb c "]".

(** The source without its comments: the glyphs, in order. *)
Fixpoint glyphs (src : string) : list ascii :=
  match src with
  | EmptyString => []
  | String c rest => if is_glyph c then c :: glyphs rest else glyphs rest
  end.

Definition glyph_count (src : string) : Z := Z.of_nat (List.length (glyphs src)).

(** The operator that the [switch] of [compile] first stores for a glyph. *)
Definition opcode (c : ascii) : Z :=
  if Ascii.eqb c ">" then OP_INC
  else if Ascii.eqb c "<" then OP_DEC
  else if Ascii.eqb c "+" then OP_ADD
  else if Ascii.eqb c "-" then OP_SUB
  else if Ascii.eqb c "." then OP_OUT
  else if Ascii.eqb c "," then OP_IN
  else if Ascii.eqb c "[" then OP_JMP
  else if Ascii.eqb c "]" then OP_RET
  else OP_END.

(** The [i]-th glyph of a list, counted from 0. *)
Definition glyph_at (g : list ascii) (i : Z) : ascii := nth (Z.to_nat i) g "000"%char.

(** The source has no bracket. *)
Definition bracket_free (src : string) : Prop :=
  forall c, In c (glyphs src) -> c <> "["%char /\ c <> "]"%char.

(** What [compile] has established when it has consumed the glyphs [done]
    and is about to write slot [length done]: the stack holds, in increasing
    order, slots of ['['] glyphs; every slot of another glyph holds the
    operator of that glyph; and the operand of every slot of a [']'] is an
    earlier slot of a ['['] that is no longer on the stack and whose operator
    field holds the index of that [']']. *)
Record compiled_upto (done : list ascii) (prog : program_t) : Prop := {
  upto_esp : 0 <= esp prog <= STACK_SIZE;
  upto_stack : forall k, 0 <= k < esp prog ->
    0 <= stack prog k < Z.of_nat (List.length done)
    /\ glyph_at done (stack prog k) = "["%char;
  upto_increasing : forall k k', 0 <= k < k' -> k' < esp prog ->
    stack prog k < stack prog k';
  upto_operators : forall i, 0 <= i < Z.of_nat (List.length done) ->
    glyph_at done i <> "["%char ->
    operator (instructions prog i) = opcode (glyph_at done i);
  upto_links : forall i, 0 <= i < Z.of_nat (List.length done) ->
    glyph_at done i = "]"%char ->
    0 <= operand (instructions prog i) < i
    /\ glyph_at done (operand (instructions prog i)) = "["%char
    /\ operator (instructions prog (operand (instructions prog i))) = i
    /\ forall k, 0 <= k < esp prog -> stack prog k <> operand (instructions prog i)
}.

(** The nesting depth after the glyphs [g], starting at [depth]; [None] when
    a [']'] comes at depth 0 or a ['['] at depth [STACK_SIZE]. *)
Fixpoint nesting (g : list ascii) (depth : Z) : option Z :=
  match g with
  | [] => Some depth
  | c :: rest =>
      if Ascii.eqb c "[" then
        if depth =? STACK_SIZE then None else nesting rest (depth + 1)
      else if Ascii.eqb c "]" then
        if depth =? 0 then None else nesting rest (depth - 1)
      else nesting rest depth
  end.

(** A source of [n] times the glyph [+]. *)
Fixpoint plus_source (n : nat) : string :=
  match n with
  | O => EmptyString
  | S n' => String "+" (plus_source n')
  end.

(** The elementary moves every command is made of: a message, one
    instruction interpreted at the program counter, a store into the program
    counter by [dbg_jump], [dbg_run] when a program is loaded, and [dbg_load]
    of either revision. *)
Inductive session : bfdb -> Prop :=
| session_init input : session (bfdb_init input)
| session_emit st e : session st -> session (emit st e)
| session_step st : session st -> session (fst (step st))
| session_jump st v : session st -> session (set_pc st v)
| session_run st : session st -> loaded st = true -> session (dbg_run st)
| session_load fs st file_name : session st -> session (dbg_load fs st file_name)
| session_load_bfdb_c fs st file_name :
    session st -> session (BfdbC.dbg_load fs st file_name).

(** All cells hold values of their type, [unsigned short]. *)
Definition cells_in_range (st : bfdb) : Prop :=
  forall k, 0 <= data (runtime st) k < 65536.

(** The loaded program ends with [OP_END] in its last slot, has between 1
    and [PROGRAM_SIZE] instructions, and an empty bracket stack. *)
Definition program_ended (st : bfdb) : Prop :=
  1 <= instr_count (program st) <= PROGRAM_SIZE
  /\ operator (instructions (program st) (instr_count (program st) - 1)) = OP_END
  /\ esp (program st) = 0.

(** The integers from [lo] to [hi], in order. *)
Definition zrange (lo hi : Z) : list Z :=
  map (fun k => lo + Z.of_nat k) (seq 0 (Z.to_nat (hi - lo + 1))).

(** [dbg_print_op] only writes to [stdout]: "@%d: ", then the glyph selected
    by the [switch] on the operator at the program counter (nothing for an
    operator above [OP_RET]), then a newline.  The function gives the number
    and the glyph text written. *)
Definition dbg_print_op (st : bfdb) : Z * string :=
  let op := operator (instructions (program st) (pc (runtime st))) in
  (pc (runtime st) + 1,
   if op =? OP_INC then ">"%string
   else if op =? OP_DEC then "<"%string
   else if op =? OP_ADD then "+"%string
   else if op =? OP_SUB then "-"%string
   else if op =? OP_OUT then "."%string
   else if op =? OP_IN then ","%string
   else if op =? OP_JMP then "["%string
   else if op =? OP_RET then "]"%string
   else if op =? OP_END then "EOF"%string
   else EmptyString).

(** ** The oldest revisions

    The two oldest revisions of the source share one [compile]: it works on
    the globals [program], [stack] and [esp] (modelled by the fields of
    [program_t]; there is no instruction count, so [instr_count] is never
    written), has no [compile_error], and its [']'] case with an empty stack
    is [return true]. *)

Module Oldest.

Inductive iteration : Type :=
| Next (prog : program_t) (pc : Z)
| ReturnFalse (prog : program_t)
| ReturnTrue (prog : program_t).

Definition compile_char (c : ascii) (prog : program_t) (pc : Z) : iteration :=
  if Ascii.eqb c ">" then Next (store_operator prog pc OP_INC) (ushort (pc + 1))
  else if Ascii.eqb c "<" then Next (store_operator prog pc OP_DEC) (ushort (pc + 1))
  else if Ascii.eqb c "+" then Next (store_operator prog pc OP_ADD) (ushort (pc + 1))
  else if Ascii.eqb c "-" then Next (store_operator prog pc OP_SUB) (ushort (pc + 1))
  else if Ascii.eqb c "." then Next (store_operator prog pc OP_OUT) (ushort (pc + 1))
  else if Ascii.eqb c "," then Next (store_operator prog pc OP_IN) (ushort (pc + 1))
  else if Ascii.eqb c "[" then
    let prog := store_operator prog pc OP_JMP in
    if esp prog =? STACK_SIZE
    then ReturnFalse prog
    else Next (push prog pc) (ushort (pc + 1))
  else if Ascii.eqb c "]" then
    if esp prog =? 0
    then ReturnTrue prog
    else
      let (prog, jmp_pc) := pop prog in
      let prog := store_operator prog pc OP_RET in
      let prog := store_operator prog pc jmp_pc in
      let prog := store_operator prog jmp_pc pc in
      Next prog (ushort (pc + 1))
  else Next prog (ushort (ushort (pc - 1) + 1)).

Definition compile_finish (prog : program_t) (pc : Z) : bool * program_t :=
  if negb (esp prog =? 0) || (pc =? PROGRAM_SIZE)
  then (false, prog)
  else (true, store_operator prog pc OP_END).

Fixpoint compile_loop (src : string) (prog : program_t) (pc : Z) : bool * program_t :=
  match src with
  | EmptyString => compile_finish prog pc
  | String c rest =>
      if pc <? PROGRAM_SIZE
      then
        match compile_char c prog pc with
        | ReturnFalse prog => (false, prog)
        | ReturnTrue prog => (true, prog)
        | Next prog pc => compile_loop rest prog pc
        end
      else compile_finish prog pc
  end.

Definition compile (fp : string) (prog : program_t) : bool * program_t :=
  compile_loop fp prog 0.

End Oldest.

(** The report is one "unmatched ']'". *)
Definition reports_unmatched_close (log : list event) : bool :=
  match log with
  | [CompileError _ _ UnmatchedClose] => true
  | _ => false
  end.

(** The session after [file spin.bf] and [run], for the source [++[]]. *)
Definition spin_running : bfdb :=
  cmd_run (cmd_file (files [("spin.bf", "++[]")]%string) (bfdb_init []) (Some "spin.bf"%string)).

(** * Properties *)

(** ** Arrays *)

Lemma upd_same {A : Type} (a : Z -> A) i v : upd a i v i = v.
Proof. unfold upd. now rewrite Z.eqb_refl. Qed.

Lemma upd_other {A : Type} (a : Z -> A) i v k : k <> i -> upd a i v k = a k.
Proof. unfold upd. intros H. apply Z.eqb_neq in H. now rewrite H. Qed.

(** ** Arithmetic of the C integer types *)

Lemma ushort_small z : 0 <= z < 65536 -> ushort z = z.
Proof. intros H. unfold ushort. now apply Z.mod_small. Qed.

Lemma uint_small z : 0 <= z < 4294967296 -> uint z = z.
Proof. intros H. unfold uint. now apply Z.mod_small. Qed.

Lemma ushort_range z : 0 <= ushort z < 65536.
Proof. unfold ushort. apply Z.mod_pos_bound. lia. Qed.

Lemma uint_range z : 0 <= uint z < 4294967296.
Proof. unfold uint. apply Z.mod_pos_bound. lia. Qed.

(** ** The interpreter *)

Ltac split_ifs :=
  repeat match goal with
         | |- context [if ?b then _ else _] => destruct b eqn:?
         end.

Ltac op_facts :=
  repeat match goal with
         | H : (_ =? _) = true |- _ => apply Z.eqb_eq in H
         | H : (_ =? _) = false |- _ => apply Z.eqb_neq in H
         | H : (_ <? _) = true |- _ => apply Z.ltb_lt in H
         | H : (_ <? _) = false |- _ => apply Z.ltb_ge in H
         | H : (_ >? _) = true |- _ => rewrite Z.gtb_ltb in H
         | H : (_ >? _) = false |- _ => rewrite Z.gtb_ltb in H
         end.

Lemma getchar_runtime st : runtime (fst (getchar st)) = runtime st.
Proof. unfold getchar. now destruct (stdin st). Qed.

Lemma getchar_program st : program (fst (getchar st)) = program st.
Proof. unfold getchar. now destruct (stdin st). Qed.

(** [dbg_interpret] returns [true] only on [OP_END] and on the two faults. *)
Lemma dbg_interpret_true st i st' :
  dbg_interpret st i = (st', true) ->
  (operator i = OP_END /\ st' = set_running (emit st ExitedNormally) false)
  \/ (operator i = OP_INC /\ st' = dbg_runtime_error st IncOutOfRange)
  \/ (operator i = OP_DEC /\ st' = dbg_runtime_error st DecBelowZero).
Proof.
  unfold dbg_interpret, next_pc.
  destruct (getchar st) as [st1 c].
  split_ifs; intros H; inversion H; subst; op_facts; auto.
Qed.

(** An instruction keeps the data pointer on the tape. *)
Lemma dbg_interpret_ptr st i :
  0 <= ptr (runtime st) < DATA_SIZE ->
  0 <= ptr (runtime (fst (dbg_interpret st i))) < DATA_SIZE.
Proof.
  intros Hp. unfold dbg_interpret, next_pc.
  pose proof (getchar_runtime st) as Hg.
  destruct (getchar st) as [st1 c]. simpl in Hg.
  unfold DATA_SIZE in *.
  split_ifs; op_facts; simpl; try rewrite Hg; try lia.
  - rewrite uint_small in * by lia. lia.
  - rewrite uint_small by lia. lia.
Qed.

Lemma dbg_interpret_dec st i :
  operator i = OP_DEC ->
  dbg_interpret st i =
  if ptr (runtime st) >? 0
  then next_pc (set_ptr st (ptr (runtime st) - 1))
  else (dbg_runtime_error st DecBelowZero, true).
Proof. intros H. unfold dbg_interpret. rewrite H. reflexivity. Qed.

Lemma dbg_interpret_inc st i :
  operator i = OP_INC ->
  dbg_interpret st i =
  if uint (ptr (runtime st) + 1) <? DATA_SIZE
  then next_pc (set_ptr st (ptr (runtime st) + 1))
  else (dbg_runtime_error st IncOutOfRange, true).
Proof. intros H. unfold dbg_interpret. rewrite H. reflexivity. Qed.

(** C6.  With the data pointer on the tape, [<] faults (pointer below 0)
    exactly when the data pointer is 0, and otherwise decrements it, so that
    at 1 it yields 0; [>] faults (pointer out of range) exactly when the data
    pointer is [DATA_SIZE - 1], and below that bound increments it. *)
Theorem C6_pointer_faults_exactly_at_the_edges (st : bfdb) (i : instruction_t) :
  0 <= ptr (runtime st) < DATA_SIZE ->
  (operator i = OP_DEC ->
     (faults st i DecBelowZero <-> ptr (runtime st) = 0)
     /\ (ptr (runtime st) <> 0 ->
         snd (dbg_interpret st i) = false
         /\ ptr (runtime (fst (dbg_interpret st i))) = ptr (runtime st) - 1)
     /\ (ptr (runtime st) = 1 ->
         snd (dbg_interpret st i) = false
         /\ ptr (runtime (fst (dbg_interpret st i))) = 0))
  /\ (operator i = OP_INC ->
     (faults st i IncOutOfRange <-> ptr (runtime st) = DATA_SIZE - 1)
     /\ (ptr (runtime st) < DATA_SIZE - 1 ->
         snd (dbg_interpret st i) = false
         /\ ptr (runtime (fst (dbg_interpret st i))) = ptr (runtime st) + 1)).
Proof.
  intros Hp. unfold DATA_SIZE in *. split; intros Hop.
  - unfold faults. rewrite (dbg_interpret_dec st i Hop).
    destruct (ptr (runtime st) >? 0) eqn:E; op_facts; simpl.
    + rewrite uint_small by lia.
      repeat split; try lia; try discriminate.
    + repeat split; try lia; reflexivity.
  - unfold faults. rewrite (dbg_interpret_inc st i Hop).
    rewrite (uint_small (ptr (runtime st) + 1)) by lia.
    destruct (ptr (runtime st) + 1 <? DATA_SIZE) eqn:E; unfold DATA_SIZE in E;
      op_facts; simpl.
    + rewrite uint_small by lia.
      repeat split; try lia; try discriminate.
    + repeat split; try lia; reflexivity.
Qed.

Lemma not_running_cmd_next st count :
  running (runtime st) = false -> cmd_next st count = emit st NotBeingRun.
Proof. intros H. unfold cmd_next. now rewrite H. Qed.

Lemma not_running_cmd_continue st fuel :
  running (runtime st) = false -> cmd_continue fuel st = Some (emit st NotBeingRun).
Proof. intros H. unfold cmd_continue. now rewrite H. Qed.

(** The program counter after an instruction that returned [false]. *)
Lemma dbg_interpret_false_pc st i st' :
  dbg_interpret st i = (st', false) ->
  pc (runtime st') = ushort (pc_of_instruction st i + 1)
  /\ running (runtime st') = running (runtime st).
Proof.
  unfold dbg_interpret, next_pc.
  pose proof (getchar_runtime st) as Hg.
  destruct (getchar st) as [st1 c]. simpl in Hg.
  split_ifs; intros H; inversion H; subst; clear H;
    unfold pc_of_instruction, jump_taken;
    repeat match goal with
           | H : (operator i =? _) = true |- _ => apply Z.eqb_eq in H; rewrite H in *
           end;
    repeat match goal with
           | H : _ = true |- _ => rewrite H
           | H : _ = false |- _ => rewrite H
           end;
    simpl; rewrite ?Hg; split; reflexivity.
Qed.

Lemma not_running_cmd_jump st index :
  running (runtime st) = false -> cmd_jump st index = emit st NotBeingRun.
Proof. intros H. unfold cmd_jump. now rewrite H. Qed.

Lemma not_running_cmd_file fs st file_name :
  running (runtime st) = false -> running (runtime (cmd_file fs st file_name)) = false.
Proof.
  intros H. unfold cmd_file, dbg_load. destruct file_name as [f|]; [|exact H].
  destruct (fs f); split_ifs; reflexivity.
Qed.

(** C5.  An instruction that neither halts nor faults leaves the program
    counter one past the value the instruction itself gave it: one past the
    old program counter, except for a jump whose condition holds, where it is
    one past the operand.  An instruction that faults leaves the program
    counter and the program as they were, so the current instruction is
    still the faulting one, and leaves the session not running, so that [next],
    [continue] and [jump] are refused with a message that changes nothing
    else, and [file] leaves the session not running; [dbg_run] makes it
    running again. *)
Theorem C5_program_counter_after_a_step (st st' : bfdb) (i : instruction_t) (ret : bool) :
  dbg_interpret st i = (st', ret) ->
  (ret = false ->
     pc (runtime st') = ushort (pc_of_instruction st i + 1)
     /\ (jump_taken st i = false -> 0 <= pc (runtime st) < 65535 ->
         pc (runtime st') = pc (runtime st) + 1)
     /\ running (runtime st') = running (runtime st))
  /\ (ret = true -> operator i <> OP_END ->
      (exists m, st' = dbg_runtime_error st m)
      /\ pc (runtime st') = pc (runtime st)
      /\ program st' = program st
      /\ running (runtime st') = false
      /\ (forall count, cmd_next st' count = emit st' NotBeingRun)
      /\ (forall fuel, cmd_continue fuel st' = Some (emit st' NotBeingRun))
      /\ (forall index, cmd_jump st' index = emit st' NotBeingRun)
      /\ running (runtime (emit st' NotBeingRun)) = false
      /\ (forall fs file_name, running (runtime (cmd_file fs st' file_name)) = false)
      /\ running (runtime (dbg_run st')) = true).
Proof.
  intros H. split.
  - intros ->. destruct (dbg_interpret_false_pc _ _ _ H) as [Hpc Hrun].
    repeat split; auto.
    intros Hj Hr. rewrite Hpc. unfold pc_of_instruction. rewrite Hj.
    apply ushort_small. lia.
  - intros -> Hend.
    assert (Hm : exists m, st' = dbg_runtime_error st m).
    { destruct (dbg_interpret_true _ _ _ H) as [[? _] | [[_ ?] | [_ ?]]];
        [contradiction | eauto | eauto]. }
    destruct Hm as [m ->].
    assert (Hr : running (runtime (dbg_runtime_error st m)) = false) by reflexivity.
    repeat split;
      eauto using not_running_cmd_next, not_running_cmd_continue,
        not_running_cmd_jump, not_running_cmd_file.
Qed.

(** ** Stepping *)

Lemma dbg_next_loop_runs_through n : forall st,
  runs_through st n -> dbg_next_loop n st false = (steps n st, false).
Proof.
  induction n as [|n IH]; intros st Hrun; simpl.
  - reflexivity.
  - pose proof (Hrun O ltac:(lia)) as H0. simpl in H0.
    destruct (step st) as [st' r] eqn:E. simpl in *. subst r.
    apply IH. intros m Hm.
    specialize (Hrun (S m) ltac:(lia)). simpl in Hrun.
    now rewrite E in Hrun.
Qed.

Lemma dbg_next_loop_stops k : forall st n,
  stops_at st n ->
  dbg_next_loop k st false = (steps (Nat.min k n) st, (n <=? k)%nat).
Proof.
  induction k as [|k IH]; intros st n (Hn & Hstop & Hbefore); simpl.
  - destruct n; [lia | reflexivity].
  - destruct n as [|n]; [lia|].
    destruct (step st) as [st' r] eqn:E.
    destruct n as [|n].
    + simpl in Hstop. rewrite E in Hstop. simpl in Hstop. subst r.
      rewrite Nat.min_0_r. simpl. now rewrite E.
    + pose proof (Hbefore O ltac:(lia)) as H0. simpl in H0.
      rewrite E in H0. simpl in H0. subst r.
      rewrite (IH st' (S n)).
      * simpl. rewrite E. reflexivity.
      * split; [lia|]. split.
        -- simpl in Hstop. rewrite E in Hstop. simpl in Hstop.
           simpl. now rewrite Nat.sub_0_r.
        -- intros m Hm. specialize (Hbefore (S m) ltac:(lia)).
           simpl in Hbefore. now rewrite E in Hbefore.
Qed.

(** C7.  [next 0] executes nothing and returns the state as it was.  For
    [k >= 1], when the [n]-th instruction is the first to halt or fault,
    [next k] leaves the state reached after exactly [min k n] instructions
    and reports termination exactly when [n <= k]; when none of the first
    [k] instructions halts or faults, it leaves the state reached after
    exactly [k] instructions.  A negative count is refused by [dbg_next] and,
    in a running session, by [cmd_next] before [dbg_next] is called: only a
    message is written. *)
Theorem C7_next_executes_min_of_count_and_steps_to_stop (st : bfdb) :
  dbg_next st 0 = (st, false)
  /\ (forall k n, 1 <= k -> stops_at st n ->
      dbg_next st k = (steps (Nat.min (Z.to_nat k) n) st, (n <=? Z.to_nat k)%nat))
  /\ (forall k, 1 <= k -> runs_through st (Z.to_nat k) ->
      dbg_next st k = (steps (Z.to_nat k) st, false))
  /\ (forall k, k < 0 -> dbg_next st k = (emit st (CountNegative k), false))
  /\ (running (runtime st) = true ->
      cmd_next st (Some {| as_int := 0; converted := true |}) = st
      /\ cmd_next st None = fst (dbg_next st 1)
      /\ (forall k, 0 <= k ->
          cmd_next st (Some {| as_int := k; converted := true |}) = fst (dbg_next st k))
      /\ (forall k, k < 0 ->
          cmd_next st (Some {| as_int := k; converted := true |})
          = emit st NegativeNotAllowed)).
Proof.
  repeat split.
  - intros k n Hk Hstop. unfold dbg_next.
    destruct (k <? 0) eqn:E; op_facts; [lia|].
    now apply dbg_next_loop_stops.
  - intros k Hk Hrun. unfold dbg_next.
    destruct (k <? 0) eqn:E; op_facts; [lia|].
    now apply dbg_next_loop_runs_through.
  - intros k Hk. unfold dbg_next.
    destruct (k <? 0) eqn:E; op_facts; [reflexivity | lia].
  - unfold cmd_next. rewrite H. reflexivity.
  - unfold cmd_next. rewrite H. reflexivity.
  - intros k Hk. unfold cmd_next, to_int. rewrite H. simpl.
    destruct (k <? 0) eqn:E; op_facts; [lia | reflexivity].
  - intros k Hk. unfold cmd_next, to_int. rewrite H. simpl.
    destruct (k <? 0) eqn:E; op_facts; [reflexivity | lia].
Qed.

(** ** Jumping *)

Lemma dbg_next_one st : dbg_next st 1 = step st.
Proof.
  unfold dbg_next. simpl. destruct (step st) as [st' r]. now destruct r.
Qed.

(** C8.  For [1 <= index <= instr_count], [jump index] stores [index - 1] in
    the program counter and leaves the program, the loaded flag, the tape, the
    data pointer, the running flag and both streams as they were; the next
    [next 1] interprets the instruction stored at [index - 1], the [index]-th
    one.  An index out of that range only writes a message.  In a running
    session the [jump] command reaches [dbg_jump] with the index given, unless
    the index is negative, which [to_int] refuses with a message.
    The hypothesis says that [instr_count] is an [unsigned short], as it is
    in every state of a session. *)
Theorem C8_jump_is_a_pure_register_write (st : bfdb) (index : Z) :
  count_in_range st ->
  (1 <= index <= instr_count (program st) ->
     let st' := dbg_jump st index in
     pc (runtime st') = index - 1
     /\ program st' = program st
     /\ loaded st' = loaded st
     /\ data (runtime st') = data (runtime st)
     /\ ptr (runtime st') = ptr (runtime st)
     /\ running (runtime st') = running (runtime st)
     /\ stdin st' = stdin st
     /\ output st' = output st
     /\ dbg_next st' 1 = dbg_interpret st' (instructions (program st) (index - 1)))
  /\ (index < 1 \/ instr_count (program st) < index ->
      dbg_jump st index = emit st (JumpNotInRange index (instr_count (program st))))
  /\ (running (runtime st) = true -> 0 <= index ->
      cmd_jump st (Some {| as_int := index; converted := true |}) = dbg_jump st index)
  /\ (running (runtime st) = true -> index < 0 ->
      cmd_jump st (Some {| as_int := index; converted := true |})
      = emit st NegativeNotAllowed).
Proof.
  unfold count_in_range. intros Hc. repeat split.
  1-9: unfold dbg_jump;
    destruct (index <? 1) eqn:E1; destruct (index >? instr_count (program st)) eqn:E2;
    op_facts; try lia; simpl; try reflexivity.
  - apply ushort_small. lia.
  - rewrite dbg_next_one. unfold step. simpl.
    rewrite (ushort_small (index - 1)) by lia. reflexivity.
  - intros [H | H]; unfold dbg_jump;
      destruct (index <? 1) eqn:E1; destruct (index >? instr_count (program st)) eqn:E2;
      op_facts; try lia; reflexivity.
  - intros Hrun Hi. unfold cmd_jump, to_int. rewrite Hrun. simpl.
    destruct (index <? 0) eqn:E; op_facts; [lia | reflexivity].
  - intros Hrun Hi. unfold cmd_jump, to_int. rewrite Hrun. simpl.
    destruct (index <? 0) eqn:E; op_facts; [reflexivity | lia].
Qed.

(** ** The data pointer stays on the tape *)

Lemma on_tape_runtime st st' :
  ptr (runtime st') = ptr (runtime st) -> on_tape st -> on_tape st'.
Proof. unfold on_tape. now intros ->. Qed.

Lemma on_tape_step st : on_tape st -> on_tape (fst (step st)).
Proof. apply dbg_interpret_ptr. Qed.

Lemma on_tape_dbg_next_loop n : forall st ret,
  on_tape st -> on_tape (fst (dbg_next_loop n st ret)).
Proof.
  induction n as [|n IH]; intros st ret H; simpl.
  - assumption.
  - pose proof (on_tape_step st H) as Hs.
    destruct (step st) as [st' r]. simpl in Hs.
    destruct r; [assumption | now apply IH].
Qed.

Lemma on_tape_dbg_next st count : on_tape st -> on_tape (fst (dbg_next st count)).
Proof.
  intros H. unfold dbg_next. destruct (count <? 0).
  - exact H.
  - now apply on_tape_dbg_next_loop.
Qed.

Lemma on_tape_dbg_jump st index : on_tape st -> on_tape (dbg_jump st index).
Proof.
  unfold dbg_jump. destruct ((index <? 1) || (index >? instr_count (program st)));
    apply on_tape_runtime; reflexivity.
Qed.

Lemma on_tape_dbg_print st index : on_tape st -> on_tape (dbg_print st index).
Proof.
  unfold dbg_print. destruct ((index <? 0) || (index >=? DATA_SIZE));
    apply on_tape_runtime; reflexivity.
Qed.

Lemma on_tape_to_int st str allow_neg :
  on_tape st -> on_tape (fst (to_int st str allow_neg)).
Proof.
  unfold to_int. split_ifs; apply on_tape_runtime; reflexivity.
Qed.

Lemma on_tape_continue_loop fuel : forall st st',
  on_tape st -> continue_loop fuel st = Some st' -> on_tape st'.
Proof.
  induction fuel as [|fuel IH]; intros st st' H; simpl.
  - discriminate.
  - pose proof (on_tape_dbg_next st 1 H) as Hs.
    destruct (dbg_next st 1) as [st1 r]. simpl in Hs.
    destruct r.
    + now intros [= <-].
    + now apply IH.
Qed.

Lemma bfdb_c_on_tape_continue_loop fuel : forall st st',
  on_tape st -> BfdbC.continue_loop fuel st = Some st' -> on_tape st'.
Proof.
  induction fuel as [|fuel IH]; intros st st' H; simpl.
  - discriminate.
  - pose proof (on_tape_step st H) as Hs. unfold BfdbC.dbg_next.
    destruct (step st) as [st1 r]. simpl in Hs.
    destruct r.
    + now intros [= <-].
    + now apply IH.
Qed.

Lemma reachable_on_tape st : reachable st -> on_tape st.
Proof.
  induction 1.
  - unfold on_tape, DATA_SIZE. simpl. lia.
  - unfold cmd_file, dbg_load. destruct file_name as [f|].
    + destruct (fs f); split_ifs; revert IHreachable; apply on_tape_runtime; reflexivity.
    + revert IHreachable; apply on_tape_runtime; reflexivity.
  - unfold BfdbC.dbg_load.
    destruct (fs file_name); split_ifs; revert IHreachable;
      apply on_tape_runtime; reflexivity.
  - unfold cmd_run, dbg_run. destruct (loaded st).
    + unfold on_tape, DATA_SIZE. simpl. lia.
    + revert IHreachable; apply on_tape_runtime; reflexivity.
  - now apply on_tape_step.
  - unfold cmd_next. destruct (running (runtime st)).
    + destruct count as [c|].
      * pose proof (on_tape_to_int st c false IHreachable) as Ht.
        destruct (to_int st c false) as [st1 ok]. simpl in Ht.
        destruct ok; [now apply on_tape_dbg_next | assumption].
      * now apply on_tape_dbg_next.
    + revert IHreachable; apply on_tape_runtime; reflexivity.
  - unfold cmd_jump. destruct (running (runtime st)).
    + destruct index as [c|].
      * pose proof (on_tape_to_int st c false IHreachable) as Ht.
        destruct (to_int st c false) as [st1 ok]. simpl in Ht.
        destruct ok; [now apply on_tape_dbg_jump | assumption].
      * revert IHreachable; apply on_tape_runtime; reflexivity.
    + revert IHreachable; apply on_tape_runtime; reflexivity.
  - unfold BfdbC.cmd_next, BfdbC.dbg_next. destruct (running (runtime st)).
    + now apply on_tape_step.
    + revert IHreachable; apply on_tape_runtime; reflexivity.
  - unfold BfdbC.cmd_jump. destruct (running (runtime st)).
    + destruct index as [c|].
      * now apply on_tape_dbg_jump.
      * revert IHreachable; apply on_tape_runtime; reflexivity.
    + revert IHreachable; apply on_tape_runtime; reflexivity.
  - unfold cmd_continue in H0. destruct (running (runtime st)).
    + eapply on_tape_continue_loop; eassumption.
    + injection H0 as <-. revert IHreachable; apply on_tape_runtime; reflexivity.
  - unfold BfdbC.cmd_continue in H0. destruct (running (runtime st)).
    + eapply bfdb_c_on_tape_continue_loop; eassumption.
    + injection H0 as <-. revert IHreachable; apply on_tape_runtime; reflexivity.
  - unfold cmd_dataptr, dbg_print_dataptr. destruct (running (runtime st));
      revert IHreachable; apply on_tape_runtime; reflexivity.
  - unfold cmd_print. destruct (running (runtime st)).
    + destruct index as [c|].
      * pose proof (on_tape_to_int st c false IHreachable) as Ht.
        destruct (to_int st c false) as [st1 ok]. simpl in Ht.
        destruct ok; [now apply on_tape_dbg_print | assumption].
      * now apply on_tape_dbg_print.
    + revert IHreachable; apply on_tape_runtime; reflexivity.
  - unfold BfdbC.cmd_print. destruct (running (runtime st)).
    + destruct index as [c|]; now apply on_tape_dbg_print.
    + revert IHreachable; apply on_tape_runtime; reflexivity.
  - unfold cmd_tape, dbg_print_tape. destruct (running (runtime st));
      revert IHreachable; apply on_tape_runtime; reflexivity.
Qed.

(** C10.  In every state a session reaches, between commands and between the
    instructions of [next] and [continue], the data pointer is an index of
    the tape, and therefore so is every cell index the interpreter reads or
    writes there. *)
Theorem C10_data_pointer_stays_on_the_tape (st : bfdb) :
  reachable st ->
  0 <= ptr (runtime st) < DATA_SIZE
  /\ (forall instruction k,
      accessed_cell st instruction = Some k -> 0 <= k < DATA_SIZE).
Proof.
  intros H. pose proof (reachable_on_tape st H) as Ht. split; [exact Ht|].
  intros i k. unfold accessed_cell. split_ifs; intros [= <-]; exact Ht.
Qed.

(** ** Loading *)

Lemma compile_char_instr_count c prog pc line col :
  instr_count (iteration_prog (compile_char c prog pc line col)) = instr_count prog.
Proof. unfold compile_char, pop. split_ifs; reflexivity. Qed.

Lemma compile_finish_instr_count prog pc line col :
  c_ok (compile_finish prog pc line col) = false ->
  instr_count (c_prog (compile_finish prog pc line col)) = instr_count prog.
Proof. unfold compile_finish. split_ifs; simpl; [reflexivity | reflexivity | discriminate]. Qed.

Lemma compile_loop_instr_count src : forall prog pc line col,
  c_ok (compile_loop src prog pc line col) = false ->
  instr_count (c_prog (compile_loop src prog pc line col)) = instr_count prog.
Proof.
  induction src as [|c rest IH]; intros prog pc line col; simpl.
  - apply compile_finish_instr_count.
  - destruct (pc <? PROGRAM_SIZE); [|apply compile_finish_instr_count].
    pose proof (compile_char_instr_count c prog pc line col) as Hc.
    destruct (compile_char c prog pc line col) as [prog' pc'|prog' log]; simpl in Hc.
    + destruct (Ascii.eqb c "010"); intros H; rewrite IH by exact H; exact Hc.
    + intros _. exact Hc.
Qed.

Lemma bfdb_c_compile_char_instr_count c prog pc :
  instr_count (bfdb_c_iteration_prog (BfdbC.compile_char c prog pc)) = instr_count prog.
Proof. unfold BfdbC.compile_char, pop. split_ifs; reflexivity. Qed.

Lemma bfdb_c_compile_finish_instr_count prog pc :
  c_ok (BfdbC.compile_finish prog pc) = false ->
  instr_count (c_prog (BfdbC.compile_finish prog pc)) = instr_count prog.
Proof. unfold BfdbC.compile_finish. split_ifs; simpl; [reflexivity | discriminate]. Qed.

Lemma bfdb_c_compile_loop_instr_count src : forall prog pc,
  c_ok (BfdbC.compile_loop src prog pc) = false ->
  instr_count (c_prog (BfdbC.compile_loop src prog pc)) = instr_count prog.
Proof.
  induction src as [|c rest IH]; intros prog pc; simpl.
  - apply bfdb_c_compile_finish_instr_count.
  - destruct (pc <? PROGRAM_SIZE); [|apply bfdb_c_compile_finish_instr_count].
    pose proof (bfdb_c_compile_char_instr_count c prog pc) as Hc.
    destruct (BfdbC.compile_char c prog pc) as [prog' pc'|prog']; simpl in Hc.
    + intros H; rewrite IH by exact H; exact Hc.
    + intros _. exact Hc.
Qed.

(** *** What [compile] reports, and where *)

Lemma compile_char_return_false c prog pc line col prog' log :
  compile_char c prog pc line col = ReturnFalse prog' log ->
  (c = "["%char /\ log = [CompileError line col LoopCountExceeds])
  \/ (c = "]"%char /\ log = [CompileError line col UnmatchedClose]).
Proof.
  unfold compile_char, pop.
  destruct (Ascii.eqb c ">"); [discriminate|].
  destruct (Ascii.eqb c "<"); [discriminate|].
  destruct (Ascii.eqb c "+"); [discriminate|].
  destruct (Ascii.eqb c "-"); [discriminate|].
  destruct (Ascii.eqb c "."); [discriminate|].
  destruct (Ascii.eqb c ","); [discriminate|].
  destruct (Ascii.eqb c "[") eqn:Eopen.
  - apply Ascii.eqb_eq in Eopen. split_ifs; intros [= <- <-]; auto.
  - destruct (Ascii.eqb c "]") eqn:Eclose; [|discriminate].
    apply Ascii.eqb_eq in Eclose. split_ifs; intros [= <- <-]; auto.
Qed.

(** An "unmatched ']'" or "loop count" error carries the line and column of
    a [']'], respectively a ['['], of the source. *)
Lemma compile_loop_error_position src : forall prog pc line col l c m,
  c_log (compile_loop src prog pc line col) = [CompileError l c m] ->
  m <> InstrCountExceeds ->
  exists pre ch post,
    src = (pre ++ String ch post)%string
    /\ position_after pre line col = (l, c)
    /\ ((m = UnmatchedClose /\ ch = "]"%char) \/ (m = LoopCountExceeds /\ ch = "["%char)).
Proof.
  assert (Hfinish : forall prog pc line col l c m,
             c_log (compile_finish prog pc line col) = [CompileError l c m] ->
             m = InstrCountExceeds).
  { intros prog pc line col l c m. unfold compile_finish.
    split_ifs; simpl; intros [=]; auto. }
  induction src as [|a rest IH]; intros prog pc line col l c m; simpl.
  - intros H Hm. now apply Hfinish in H.
  - destruct (pc <? PROGRAM_SIZE); [|intros H Hm; now apply Hfinish in H].
    destruct (compile_char a prog pc line col) as [prog' pc'|prog' log] eqn:E.
    + destruct (Ascii.eqb a "010") eqn:Enl; intros H Hm;
        destruct (IH _ _ _ _ _ _ _ H Hm) as (pre & ch & post & -> & Hpos & Hch);
        exists (String a pre), ch, post; simpl; rewrite Enl; auto.
    + simpl. intros H Hm.
      destruct (compile_char_return_false _ _ _ _ _ _ _ E) as [[-> ->] | [-> ->]];
        injection H as <- <- <-;
        exists EmptyString; do 2 eexists;
        (split; [reflexivity|]); (split; [reflexivity|]); auto.
Qed.

Lemma compile_error_position fp prog l c m :
  c_log (compile fp prog) = [CompileError l c m] ->
  m <> InstrCountExceeds ->
  exists pre ch post,
    fp = (pre ++ String ch post)%string
    /\ position_of pre = (l, c)
    /\ ((m = UnmatchedClose /\ ch = "]"%char) \/ (m = LoopCountExceeds /\ ch = "["%char)).
Proof. apply compile_loop_error_position. Qed.

(** One iteration on [']'] with a pending bracket: the slot of [']'] gets
    [OP_RET] and the popped index as operand; the popped slot gets the index
    of [']'] as its operator, and its operand is not written. *)
Lemma compile_char_close prog pc line col :
  esp prog <> 0 ->
  let jmp_pc := stack prog (uint (esp prog - 1)) in
  exists prog',
    compile_char "]" prog pc line col = Next prog' (ushort (pc + 1))
    /\ esp prog' = uint (esp prog - 1)
    /\ operator (instructions prog' jmp_pc) = ushort pc
    /\ (jmp_pc <> pc ->
        instructions prog' pc = {| operator := OP_RET; operand := ushort jmp_pc |}
        /\ operand (instructions prog' jmp_pc) = operand (instructions prog jmp_pc)).
Proof.
  intros Hesp jmp_pc. unfold compile_char, pop. simpl.
  apply Z.eqb_neq in Hesp. rewrite Hesp.
  eexists. split; [reflexivity|]. simpl. fold jmp_pc.
  split; [reflexivity|]. split.
  - now rewrite upd_same.
  - intros Hne. split.
    + rewrite upd_other by congruence. rewrite !upd_same. reflexivity.
    + rewrite upd_same. simpl. now rewrite !upd_other by exact Hne.
Qed.

(** *** The program is written by [compile] only *)

Lemma dbg_interpret_program st i : program (fst (dbg_interpret st i)) = program st.
Proof.
  unfold dbg_interpret, next_pc.
  pose proof (getchar_program st) as Hg.
  destruct (getchar st) as [st1 c]. simpl in Hg.
  split_ifs; simpl; auto.
Qed.

Lemma dbg_next_loop_program n : forall st ret,
  program (fst (dbg_next_loop n st ret)) = program st.
Proof.
  induction n as [|n IH]; intros st ret; simpl.
  - reflexivity.
  - pose proof (dbg_interpret_program st (instructions (program st) (pc (runtime st))))
      as Hs.
    unfold step. destruct (dbg_interpret st _) as [st' r]. simpl in Hs.
    destruct r; [exact Hs | now rewrite IH].
Qed.

Lemma dbg_next_program st count : program (fst (dbg_next st count)) = program st.
Proof.
  unfold dbg_next. destruct (count <? 0); [reflexivity | apply dbg_next_loop_program].
Qed.

Lemma continue_loop_program fuel : forall st st',
  continue_loop fuel st = Some st' -> program st' = program st.
Proof.
  induction fuel as [|fuel IH]; intros st st'; simpl.
  - discriminate.
  - pose proof (dbg_next_program st 1) as Hs.
    destruct (dbg_next st 1) as [st1 r]. simpl in Hs.
    destruct r.
    + now intros [= <-].
    + intros H. rewrite (IH _ _ H). exact Hs.
Qed.

Lemma bfdb_c_continue_loop_program fuel : forall st st',
  BfdbC.continue_loop fuel st = Some st' -> program st' = program st.
Proof.
  induction fuel as [|fuel IH]; intros st st'; simpl.
  - discriminate.
  - pose proof (dbg_interpret_program st (instructions (program st) (pc (runtime st))))
      as Hs.
    unfold BfdbC.dbg_next, step. destruct (dbg_interpret st _) as [st1 r]. simpl in Hs.
    destruct r.
    + now intros [= <-].
    + intros H. rewrite (IH _ _ H). exact Hs.
Qed.

Lemma to_int_program st str allow_neg :
  program (fst (to_int st str allow_neg)) = program st.
Proof. unfold to_int. split_ifs; reflexivity. Qed.

Lemma dbg_jump_program st index : program (dbg_jump st index) = program st.
Proof. unfold dbg_jump. split_ifs; reflexivity. Qed.

Lemma dbg_print_program st index : program (dbg_print st index) = program st.
Proof. unfold dbg_print. split_ifs; reflexivity. Qed.

Lemma compile_loop_count_range src : forall prog pc line col,
  0 <= instr_count prog < 65536 ->
  0 <= instr_count (c_prog (compile_loop src prog pc line col)) < 65536.
Proof.
  assert (Hfinish : forall prog pc line col,
             0 <= instr_count prog < 65536 ->
             0 <= instr_count (c_prog (compile_finish prog pc line col)) < 65536).
  { intros prog pc line col H. unfold compile_finish.
    split_ifs; simpl; auto using ushort_range. }
  induction src as [|c rest IH]; intros prog pc line col H; simpl.
  - now apply Hfinish.
  - destruct (pc <? PROGRAM_SIZE); [|now apply Hfinish].
    pose proof (compile_char_instr_count c prog pc line col) as Hc.
    destruct (compile_char c prog pc line col) as [prog' pc'|prog' log]; simpl in Hc.
    + destruct (Ascii.eqb c "010"); apply IH; now rewrite Hc.
    + simpl. now rewrite Hc.
Qed.

Lemma bfdb_c_compile_loop_count_range src : forall prog pc,
  0 <= instr_count prog < 65536 ->
  0 <= instr_count (c_prog (BfdbC.compile_loop src prog pc)) < 65536.
Proof.
  assert (Hfinish : forall prog pc,
             0 <= instr_count prog < 65536 ->
             0 <= instr_count (c_prog (BfdbC.compile_finish prog pc)) < 65536).
  { intros prog pc H. unfold BfdbC.compile_finish.
    split_ifs; simpl; auto using ushort_range. }
  induction src as [|c rest IH]; intros prog pc H; simpl.
  - now apply Hfinish.
  - destruct (pc <? PROGRAM_SIZE); [|now apply Hfinish].
    pose proof (bfdb_c_compile_char_instr_count c prog pc) as Hc.
    destruct (BfdbC.compile_char c prog pc) as [prog' pc'|prog']; simpl in Hc.
    + apply IH; now rewrite Hc.
    + simpl. now rewrite Hc.
Qed.

Lemma count_in_range_program st st' :
  program st' = program st -> count_in_range st -> count_in_range st'.
Proof. unfold count_in_range. now intros ->. Qed.

(** In every state of a session [instr_count] is a value of its type. *)
Lemma reachable_count_in_range st : reachable st -> count_in_range st.
Proof.
  induction 1.
  - unfold count_in_range. simpl. lia.
  - unfold cmd_file, dbg_load. destruct file_name as [f|]; [|exact IHreachable].
    destruct (fs f) as [fp|]; [|exact IHreachable].
    assert (Hc : 0 <= instr_count (c_prog (compile fp (program st))) < 65536)
      by (apply compile_loop_count_range; exact IHreachable).
    split_ifs; exact Hc.
  - unfold BfdbC.dbg_load.
    destruct (fs file_name) as [fp|]; [|exact IHreachable].
    assert (Hc : 0 <= instr_count (c_prog (BfdbC.compile fp (program st))) < 65536)
      by (apply bfdb_c_compile_loop_count_range; exact IHreachable).
    split_ifs; exact Hc.
  - unfold cmd_run. destruct (loaded st); exact IHreachable.
  - revert IHreachable. apply count_in_range_program, dbg_interpret_program.
  - revert IHreachable. apply count_in_range_program.
    unfold cmd_next. destruct (running (runtime st)); [|reflexivity].
    destruct count as [c|]; [|apply dbg_next_program].
    pose proof (to_int_program st c false) as Ht.
    destruct (to_int st c false) as [st1 ok]. simpl in Ht.
    destruct ok; [now rewrite dbg_next_program | exact Ht].
  - revert IHreachable. apply count_in_range_program.
    unfold cmd_jump. destruct (running (runtime st)); [|reflexivity].
    destruct index as [c|]; [|reflexivity].
    pose proof (to_int_program st c false) as Ht.
    destruct (to_int st c false) as [st1 ok]. simpl in Ht.
    destruct ok; [now rewrite dbg_jump_program | exact Ht].
  - revert IHreachable. apply count_in_range_program.
    unfold BfdbC.cmd_next, BfdbC.dbg_next. destruct (running (runtime st));
      [apply dbg_interpret_program | reflexivity].
  - revert IHreachable. apply count_in_range_program.
    unfold BfdbC.cmd_jump. destruct (running (runtime st)); [|reflexivity].
    destruct index as [c|]; [apply dbg_jump_program | reflexivity].
  - revert IHreachable. apply count_in_range_program.
    unfold cmd_continue in H0. destruct (running (runtime st)).
    + eapply continue_loop_program; eassumption.
    + now injection H0 as <-.
  - revert IHreachable. apply count_in_range_program.
    unfold BfdbC.cmd_continue in H0. destruct (running (runtime st)).
    + eapply bfdb_c_continue_loop_program; eassumption.
    + now injection H0 as <-.
  - revert IHreachable. apply count_in_range_program.
    unfold cmd_dataptr. destruct (running (runtime st)); reflexivity.
  - revert IHreachable. apply count_in_range_program.
    unfold cmd_print. destruct (running (runtime st)); [|reflexivity].
    destruct index as [c|]; [|apply dbg_print_program].
    pose proof (to_int_program st c false) as Ht.
    destruct (to_int st c false) as [st1 ok]. simpl in Ht.
    destruct ok; [now rewrite dbg_print_program | exact Ht].
  - revert IHreachable. apply count_in_range_program.
    unfold BfdbC.cmd_print. destruct (running (runtime st)); [|reflexivity].
    destruct index as [c|]; apply dbg_print_program.
  - revert IHreachable. apply count_in_range_program.
    unfold cmd_tape. destruct (running (runtime st)); reflexivity.
Qed.

(** C4, as amended.  After a [load] that fails the session is not running,
    and the tape, the program counter, the data pointer and the instruction
    count are the ones from before.  When the file cannot be opened the
    whole program and the loaded flag are the ones from before, so a program
    loaded earlier stays loaded; when compilation fails the session is
    marked not loaded.  The same holds for the [dbg_load] of [bfdb.c]. *)
Theorem C4_failed_load_stops_the_run (fs : filesystem) (st : bfdb) (file_name : string) :
  load_fails fs st file_name = true ->
  let st' := dbg_load fs st file_name in
  running (runtime st') = false
  /\ data (runtime st') = data (runtime st)
  /\ pc (runtime st') = pc (runtime st)
  /\ ptr (runtime st') = ptr (runtime st)
  /\ instr_count (program st') = instr_count (program st)
  /\ (fs file_name = None ->
      program st' = program st /\ loaded st' = loaded st
      /\ BfdbC.dbg_load fs st file_name = st')
  /\ (fs file_name <> None -> loaded st' = false)
  /\ (forall fp, fs file_name = Some fp ->
      c_ok (BfdbC.compile fp (program st)) = false ->
      let st'' := BfdbC.dbg_load fs st file_name in
      loaded st'' = false
      /\ runtime st'' = runtime st'
      /\ instr_count (program st'') = instr_count (program st)).
Proof.
  unfold load_fails, dbg_load, BfdbC.dbg_load. intros Hfail.
  destruct (fs file_name) as [fp|] eqn:Hfs; simpl.
  - apply negb_true_iff in Hfail. simpl. rewrite Hfail. simpl.
    repeat split; try congruence.
    + unfold compile. now apply compile_loop_instr_count.
    + injection H as <-. now rewrite H0.
    + injection H as <-. now rewrite H0.
    + injection H as <-. rewrite H0. simpl.
      unfold BfdbC.compile. now apply bfdb_c_compile_loop_instr_count.
  - repeat split; try congruence; discriminate.
Qed.

(** ** Concrete sessions *)

(** C1.  Compiling [[]] from the initial state succeeds, and the slot of
    ['['] ends with the index of [']'] as its operator (1, which is
    [OP_INC]) and an operand that was never written, where the design
    document asks for [OP_JMP] with operand 1.  The slot of [']'] holds
    [OP_RET] with operand 0.  In [bfdb.c] both slots end with the index of
    the other bracket as operator and no operand written. *)
Theorem C1_bracket_indices_stored_as_operators :
  let r := compile "[]" program_init in
  let r' := BfdbC.compile "[]" program_init in
  c_ok r = true
  /\ instr_count (c_prog r) = 3
  /\ slot (c_prog r) 0 = (OP_INC, 0)
  /\ slot (c_prog r) 0 <> (OP_JMP, 1)
  /\ slot (c_prog r) 1 = (OP_RET, 0)
  /\ slot (c_prog r) 2 = (OP_END, 0)
  /\ c_ok r' = true
  /\ slot (c_prog r') 0 = (OP_INC, 0)
  /\ slot (c_prog r') 1 = (OP_END, 0).
Proof. vm_compute. repeat split; discriminate. Qed.

(** C2.  A source with one unmatched ['['] is refused without any
    compilation error being reported, and leaves its bracket on the
    compiler's stack; a source with one unmatched [']'] loaded next is then
    compiled successfully and installed, although the same file is refused
    with "unmatched ']'" when loaded first. *)
Theorem C2_unmatched_close_bracket_accepted_after_failed_load :
  let st1 := fresh_load "open.bf" in
  let st2 := dbg_load example_files st1 "close.bf" in
  loaded st1 = false
  /\ output st1 = [Reading "open.bf"; CouldNotRead "open.bf"]
  /\ esp (program st1) = 1
  /\ loaded st2 = true
  /\ instr_count (program st2) = 2
  /\ output st2 = output st1 ++ [Reading "close.bf"]
  /\ running (runtime (cmd_run st2)) = true
  /\ loaded (fresh_load "close.bf") = false
  /\ output (fresh_load "close.bf")
     = [Reading "close.bf"; CompileError 1 1 UnmatchedClose; CouldNotRead "close.bf"]
  /\ loaded (BfdbC.dbg_load example_files
               (BfdbC.dbg_load example_files (bfdb_init []) "open.bf") "close.bf") = true.
Proof. vm_compute. repeat split. Qed.

(** C3.  The program installed for [>>[++++]] depends on what was loaded
    before: the operand of its ['['] slot is the one an earlier program left
    there, and three steps of execution end on a different instruction.
    Whether a load succeeds depends on earlier loads too: [+] is refused
    after a failed load of [[]. *)
Theorem C3_installed_program_depends_on_earlier_loads :
  let first := fresh_load "skip.bf" in
  let second := dbg_load example_files (fresh_load "loop.bf") "skip.bf" in
  loaded first = true
  /\ loaded second = true
  /\ instr_count (program first) = 9
  /\ instr_count (program second) = 9
  /\ slot (program first) 2 = (OP_JMP, 0)
  /\ slot (program second) 2 = (OP_JMP, 1)
  /\ pc (runtime (fst (dbg_next (dbg_run first) 3))) = 1
  /\ pc (runtime (fst (dbg_next (dbg_run second) 3))) = 2
  /\ loaded (fresh_load "plus.bf") = true
  /\ loaded (dbg_load example_files (fresh_load "open.bf") "plus.bf") = false.
Proof. vm_compute. repeat split. Qed.

(** C4, as the design document has it, fails twice.  After [+] is loaded, a
    load of a file that does not exist leaves the session loaded; and a load
    of [-[], which does not compile, overwrites slot 0 of the program. *)
Lemma C4_failed_load_counterexample :
  ~ failed_load_keeps_program example_files (fresh_load "plus.bf") "missing.bf"
  /\ ~ failed_load_keeps_program example_files (fresh_load "plus.bf") "bad.bf".
Proof.
  split; intros H.
  - destruct (H eq_refl) as [Hloaded _]. vm_compute in Hloaded. discriminate.
  - destruct (H eq_refl) as (_ & _ & Hprog & _).
    apply (f_equal (fun p => operator (instructions p 0))) in Hprog.
    vm_compute in Hprog. discriminate.
Qed.

(** C9.  The one-character source [[] fails to compile without any
    [compile_error]: no line and no column are reported, only the "Could not
    read" of [dbg_load], whereas [']'] is reported at line 1, column 1. *)
Theorem C9_unmatched_open_bracket_has_no_position :
  let r := compile "[" program_init in
  c_ok r = false
  /\ c_log r = []
  /\ output (fresh_load "open.bf") = [Reading "open.bf"; CouldNotRead "open.bf"]
  /\ c_log (compile "]" program_init) = [CompileError 1 1 UnmatchedClose].
Proof. vm_compute. repeat split. Qed.

(** ** Instances on concrete sessions *)

(** A failed load of [-[] after [+]: the session stays as the theorem says. *)
Lemma C4_failed_load_witness :
  load_fails example_files (fresh_load "plus.bf") "bad.bf" = true
  /\ loaded (dbg_load example_files (fresh_load "plus.bf") "bad.bf") = false
  /\ instr_count (program (dbg_load example_files (fresh_load "plus.bf") "bad.bf")) = 2.
Proof.
  assert (Hfail : load_fails example_files (fresh_load "plus.bf") "bad.bf" = true)
    by reflexivity.
  pose proof (C4_failed_load_stops_the_run example_files (fresh_load "plus.bf")
                "bad.bf" Hfail) as (_ & _ & _ & _ & Hcount & _ & Hloaded & _).
  split; [exact Hfail|]. split.
  - apply Hloaded. discriminate.
  - rewrite Hcount. reflexivity.
Defined.

(** [+] executed at the start of [demo.bf], and [<] executed at the start of
    [under.bf]. *)
Lemma C5_program_counter_witness :
  pc (runtime (fst (step demo_running))) = 1
  /\ pc (runtime (fst (step (cmd_run (fresh_load "under.bf"))))) = 0
  /\ running (runtime (fst (step (cmd_run (fresh_load "under.bf"))))) = false.
Proof.
  split; [|split].
  - pose proof (C5_program_counter_after_a_step demo_running
                  (fst (step demo_running))
                  (instructions (program demo_running) (pc (runtime demo_running)))
                  false eq_refl) as [H _].
    destruct (H eq_refl) as (_ & Hpc & _).
    rewrite Hpc; [reflexivity | reflexivity | unfold demo_running; simpl; lia].
  - pose proof (C5_program_counter_after_a_step (cmd_run (fresh_load "under.bf"))
                  (fst (step (cmd_run (fresh_load "under.bf"))))
                  (instructions (program (cmd_run (fresh_load "under.bf"))) 0)
                  true eq_refl) as [_ H].
    assert (Hop : operator (instructions (program (cmd_run (fresh_load "under.bf"))) 0)
                  <> OP_END) by (vm_compute; discriminate).
    destruct (H eq_refl Hop) as (_ & Hpc & _). rewrite Hpc. reflexivity.
  - pose proof (C5_program_counter_after_a_step (cmd_run (fresh_load "under.bf"))
                  (fst (step (cmd_run (fresh_load "under.bf"))))
                  (instructions (program (cmd_run (fresh_load "under.bf"))) 0)
                  true eq_refl) as [_ H].
    assert (Hop : operator (instructions (program (cmd_run (fresh_load "under.bf"))) 0)
                  <> OP_END) by (vm_compute; discriminate).
    destruct (H eq_refl Hop) as (_ & _ & _ & Hrun & _). exact Hrun.
Defined.

(** [<] at data pointer 0, right after [run]. *)
Lemma C6_pointer_faults_witness :
  0 <= ptr (runtime demo_running) < DATA_SIZE
  /\ faults demo_running {| operator := OP_DEC; operand := 0 |} DecBelowZero.
Proof.
  assert (Hp : 0 <= ptr (runtime demo_running) < DATA_SIZE)
    by (unfold DATA_SIZE; simpl; lia).
  split; [exact Hp|].
  destruct (C6_pointer_faults_exactly_at_the_edges demo_running
              {| operator := OP_DEC; operand := 0 |} Hp) as [Hdec _].
  destruct (Hdec eq_refl) as [Hiff _]. apply Hiff. reflexivity.
Defined.

(** [next 7] on [demo.bf] executes its seven instructions; [next 5] on
    [plus.bf] stops after two, the second being [OP_END]. *)
Lemma C7_next_witness :
  runs_through demo_running 7
  /\ dbg_next demo_running 7 = (steps 7 demo_running, false)
  /\ stops_at (cmd_run (fresh_load "plus.bf")) 2
  /\ dbg_next (cmd_run (fresh_load "plus.bf")) 5
     = (steps 2 (cmd_run (fresh_load "plus.bf")), true).
Proof.
  assert (Hrun : runs_through demo_running 7).
  { intros m Hm. do 7 (destruct m as [|m]; [reflexivity|]). lia. }
  assert (Hstop : stops_at (cmd_run (fresh_load "plus.bf")) 2).
  { split; [lia|]. split; [reflexivity|].
    intros m Hm. destruct m as [|m]; [reflexivity | simpl in Hm; lia]. }
  destruct (C7_next_executes_min_of_count_and_steps_to_stop demo_running)
    as (_ & _ & Hthrough & _).
  destruct (C7_next_executes_min_of_count_and_steps_to_stop
              (cmd_run (fresh_load "plus.bf"))) as (_ & Hmin & _).
  split; [exact Hrun|]. split; [|split; [exact Hstop|]].
  - apply (Hthrough 7); [lia | exact Hrun].
  - apply (Hmin 5 2%nat); [lia | exact Hstop].
Defined.

(** [jump 3] in the running session of [demo.bf], which has 8 instructions. *)
Lemma C8_jump_witness :
  count_in_range demo_running
  /\ 1 <= 3 <= instr_count (program demo_running)
  /\ pc (runtime (dbg_jump demo_running 3)) = 2.
Proof.
  assert (Hc : count_in_range demo_running)
    by (vm_compute; split; [discriminate | reflexivity]).
  assert (Hi : 1 <= 3 <= instr_count (program demo_running))
    by (vm_compute; split; discriminate).
  split; [exact Hc|]. split; [exact Hi|].
  destruct (C8_jump_is_a_pure_register_write demo_running 3 Hc) as [Hjump _].
  destruct (Hjump Hi) as [Hpc _]. exact Hpc.
Defined.

(** The session [file demo.bf], [run], [next 3], [jump 1], [tape]. *)
Lemma C10_data_pointer_witness :
  let st :=
    cmd_tape
      (cmd_jump
         (cmd_next (cmd_run (cmd_file example_files (bfdb_init []) (Some "demo.bf"%string)))
            (Some {| as_int := 3; converted := true |}))
         (Some {| as_int := 1; converted := true |})) in
  reachable st /\ 0 <= ptr (runtime st) < DATA_SIZE.
Proof.
  intros st.
  assert (Hreach : reachable st).
  { unfold st. apply reach_tape, reach_jump, reach_next, reach_run, reach_file, reach_init. }
  split; [exact Hreach|].
  destruct (C10_data_pointer_stays_on_the_tape st Hreach) as [Hptr _]. exact Hptr.
Defined.

(** * Further properties *)

(** ** The compiler *)

Lemma compile_char_not_glyph c prog pc line col :
  is_glyph c = false -> 0 <= pc < 65536 ->
  compile_char c prog pc line col = Next prog pc.
Proof.
  unfold is_glyph, compile_char. intros H Hpc.
  repeat (apply orb_false_iff in H; destruct H as [H ?]).
  repeat match goal with E : Ascii.eqb _ _ = false |- _ => rewrite E; clear E end.
  f_equal. unfold ushort.
  destruct (Z.eq_dec pc 0) as [->|Hne]; [reflexivity|].
  rewrite (Z.mod_small (pc - 1)) by lia.
  replace (pc - 1 + 1) with pc by lia. apply Z.mod_small. lia.
Qed.

(** What an iteration on a glyph does to the program counter, the stack
    pointer and the outcome, as a function of the stack pointer alone. *)
Lemma compile_char_glyph c prog pc line col :
  is_glyph c = true ->
  match compile_char c prog pc line col with
  | Next prog' pc' =>
      pc' = ushort (pc + 1)
      /\ ((c = "["%char /\ esp prog <> STACK_SIZE /\ esp prog' = uint (esp prog + 1))
          \/ (c = "]"%char /\ esp prog <> 0 /\ esp prog' = uint (esp prog - 1))
          \/ (c <> "["%char /\ c <> "]"%char /\ esp prog' = esp prog))
  | ReturnFalse prog' log =>
      esp prog' = esp prog
      /\ ((c = "["%char /\ esp prog = STACK_SIZE
           /\ log = [CompileError line col LoopCountExceeds])
          \/ (c = "]"%char /\ esp prog = 0
              /\ log = [CompileError line col UnmatchedClose]))
  end.
Proof.
  unfold is_glyph, compile_char, pop. intros H.
  destruct (Ascii.eqb c ">") eqn:E1;
    [apply Ascii.eqb_eq in E1; subst; simpl; split; [reflexivity|];
     right; right; repeat split; discriminate|].
  destruct (Ascii.eqb c "<") eqn:E2;
    [apply Ascii.eqb_eq in E2; subst; simpl; split; [reflexivity|];
     right; right; repeat split; discriminate|].
  destruct (Ascii.eqb c "+") eqn:E3;
    [apply Ascii.eqb_eq in E3; subst; simpl; split; [reflexivity|];
     right; right; repeat split; discriminate|].
  destruct (Ascii.eqb c "-") eqn:E4;
    [apply Ascii.eqb_eq in E4; subst; simpl; split; [reflexivity|];
     right; right; repeat split; discriminate|].
  destruct (Ascii.eqb c ".") eqn:E5;
    [apply Ascii.eqb_eq in E5; subst; simpl; split; [reflexivity|];
     right; right; repeat split; discriminate|].
  destruct (Ascii.eqb c ",") eqn:E6;
    [apply Ascii.eqb_eq in E6; subst; simpl; split; [reflexivity|];
     right; right; repeat split; discriminate|].
  destruct (Ascii.eqb c "[") eqn:E7.
  - apply Ascii.eqb_eq in E7; subst. simpl.
    destruct (esp prog =? STACK_SIZE) eqn:E; op_facts; simpl.
    + split; [reflexivity|]. left. auto.
    + split; [reflexivity|]. left. auto.
  - destruct (Ascii.eqb c "]") eqn:E8; [|simpl in H; discriminate].
    apply Ascii.eqb_eq in E8; subst. simpl.
    destruct (esp prog =? 0) eqn:E; op_facts; simpl.
    + split; [reflexivity|]. right. auto.
    + split; [reflexivity|]. right. left. auto.
Qed.

Lemma compile_char_esp c prog1 prog2 pc line col :
  esp prog1 = esp prog2 ->
  match compile_char c prog1 pc line col, compile_char c prog2 pc line col with
  | Next p1 pc1, Next p2 pc2 => pc1 = pc2 /\ esp p1 = esp p2
  | ReturnFalse p1 log1, ReturnFalse p2 log2 => log1 = log2 /\ esp p1 = esp p2
  | _, _ => False
  end.
Proof.
  intros E. unfold compile_char, pop. simpl. rewrite E.
  split_ifs; simpl; rewrite ?E; auto.
Qed.

Lemma compile_finish_esp prog1 prog2 pc line col :
  esp prog1 = esp prog2 ->
  c_ok (compile_finish prog1 pc line col) = c_ok (compile_finish prog2 pc line col)
  /\ c_log (compile_finish prog1 pc line col) = c_log (compile_finish prog2 pc line col)
  /\ esp (c_prog (compile_finish prog1 pc line col))
     = esp (c_prog (compile_finish prog2 pc line col)).
Proof.
  intros E. unfold compile_finish. rewrite E. split_ifs; simpl; auto.
Qed.

Lemma compile_loop_esp src : forall prog1 prog2 pc line col,
  esp prog1 = esp prog2 ->
  c_ok (compile_loop src prog1 pc line col) = c_ok (compile_loop src prog2 pc line col)
  /\ c_log (compile_loop src prog1 pc line col)
     = c_log (compile_loop src prog2 pc line col)
  /\ esp (c_prog (compile_loop src prog1 pc line col))
     = esp (c_prog (compile_loop src prog2 pc line col)).
Proof.
  induction src as [|c rest IH]; intros prog1 prog2 pc line col E; simpl.
  - now apply compile_finish_esp.
  - destruct (pc <? PROGRAM_SIZE); [|now apply compile_finish_esp].
    pose proof (compile_char_esp c prog1 prog2 pc line col E) as Hc.
    destruct (compile_char c prog1 pc line col) as [p1 pc1|p1 log1];
      destruct (compile_char c prog2 pc line col) as [p2 pc2|p2 log2];
      try contradiction; destruct Hc as [-> Hesp].
    + destruct (Ascii.eqb c "010"); now apply IH.
    + simpl. auto.
Qed.

(** X1.  Whether [compile] accepts a source, what it reports and the stack
    pointer it leaves depend on the program it overwrites only through that
    program's stack pointer: neither the instructions nor the contents of the
    stack of an earlier compilation matter. *)
Theorem X1_compile_verdict_depends_on_esp_only (fp : string) (prog1 prog2 : program_t) :
  esp prog1 = esp prog2 ->
  c_ok (compile fp prog1) = c_ok (compile fp prog2)
  /\ c_log (compile fp prog1) = c_log (compile fp prog2)
  /\ esp (c_prog (compile fp prog1)) = esp (c_prog (compile fp prog2)).
Proof. apply compile_loop_esp. Qed.

(** Once [pc] has reached the capacity the rest of the file is not
    compiled. *)
Lemma compile_loop_at_capacity src prog line col :
  c_ok (compile_loop src prog PROGRAM_SIZE line col) = false
  /\ c_prog (compile_loop src prog PROGRAM_SIZE line col) = prog
  /\ c_log (compile_loop src prog PROGRAM_SIZE line col)
     = [CompileError line col InstrCountExceeds].
Proof.
  destruct src; simpl; unfold compile_finish; simpl; auto.
Qed.

Lemma glyph_count_nonneg src : 0 <= glyph_count src.
Proof. unfold glyph_count. lia. Qed.

Lemma glyph_count_cons c rest :
  glyph_count (String c rest)
  = if is_glyph c then 1 + glyph_count rest else glyph_count rest.
Proof.
  unfold glyph_count. cbn [glyphs]. destruct (is_glyph c); [|reflexivity].
  cbn [List.length]. rewrite Nat2Z.inj_succ. lia.
Qed.

(** The program and the verdict do not depend on the comments of the
    source, nor on the line and column the compilation starts from. *)
Lemma compile_loop_glyphs src : forall prog pc line col line' col',
  0 <= pc <= PROGRAM_SIZE ->
  c_ok (compile_loop src prog pc line col)
  = c_ok (compile_loop (string_of_list_ascii (glyphs src)) prog pc line' col')
  /\ c_prog (compile_loop src prog pc line col)
     = c_prog (compile_loop (string_of_list_ascii (glyphs src)) prog pc line' col').
Proof.
  assert (Hfin : forall prog pc l c l' c',
             c_ok (compile_finish prog pc l c) = c_ok (compile_finish prog pc l' c')
             /\ c_prog (compile_finish prog pc l c) = c_prog (compile_finish prog pc l' c')).
  { intros. unfold compile_finish. split_ifs; simpl; auto. }
  assert (Hcap : forall s prog l c l' c',
             c_ok (compile_loop s prog PROGRAM_SIZE l c)
             = c_ok (compile_finish prog PROGRAM_SIZE l' c')
             /\ c_prog (compile_loop s prog PROGRAM_SIZE l c)
                = c_prog (compile_finish prog PROGRAM_SIZE l' c')).
  { intros. destruct (compile_loop_at_capacity s prog l c) as (-> & -> & _).
    unfold compile_finish. simpl. auto. }
  induction src as [|a rest IH]; intros prog pc line col line' col' Hpc.
  - simpl. apply Hfin.
  - cbn [compile_loop glyphs].
    destruct (pc <? PROGRAM_SIZE) eqn:Elt; op_facts.
    + destruct (is_glyph a) eqn:Eg.
      * cbn [string_of_list_ascii compile_loop].
        apply Z.ltb_lt in Elt. rewrite Elt. apply Z.ltb_lt in Elt.
        assert (Hchar : compile_char a prog pc line col = compile_char a prog pc line' col'
                        \/ exists p l1 l2, compile_char a prog pc line col = ReturnFalse p l1
                                           /\ compile_char a prog pc line' col' = ReturnFalse p l2).
        { unfold compile_char, pop. split_ifs; eauto 10. }
        destruct Hchar as [<- | (p & l1 & l2 & -> & ->)]; [|simpl; auto].
        pose proof (compile_char_glyph a prog pc line col Eg) as Hg.
        destruct (compile_char a prog pc line col) as [p pc1|p log]; [|simpl; auto].
        destruct Hg as [-> _].
        rewrite ushort_small by (unfold PROGRAM_SIZE in *; lia).
        destruct (Ascii.eqb a "010"); apply IH; lia.
      * rewrite compile_char_not_glyph
          by (auto; unfold PROGRAM_SIZE in *; lia).
        destruct (Ascii.eqb a "010"); apply IH; lia.
    + assert (pc = PROGRAM_SIZE) by lia. subst pc.
      destruct (Hcap (string_of_list_ascii
                        (if is_glyph a then a :: glyphs rest else glyphs rest))
                  prog line' col' line col) as [-> ->]. auto.
Qed.

(** X2.  Characters other than the eight glyphs are inert: a source and the
    source with all other characters removed are accepted or refused alike
    and leave the same program, on whatever program they are compiled. *)
Theorem X2_compile_ignores_comments (fp : string) (prog : program_t) :
  c_ok (compile fp prog) = c_ok (compile (string_of_list_ascii (glyphs fp)) prog)
  /\ c_prog (compile fp prog) = c_prog (compile (string_of_list_ascii (glyphs fp)) prog).
Proof. apply compile_loop_glyphs. unfold PROGRAM_SIZE. lia. Qed.

Lemma compile_loop_success src : forall prog pc line col,
  0 <= pc <= PROGRAM_SIZE ->
  c_ok (compile_loop src prog pc line col) = true ->
  pc + glyph_count src < PROGRAM_SIZE
  /\ instr_count (c_prog (compile_loop src prog pc line col)) = pc + glyph_count src + 1
  /\ operator (instructions (c_prog (compile_loop src prog pc line col))
                 (pc + glyph_count src)) = OP_END
  /\ esp (c_prog (compile_loop src prog pc line col)) = 0
  /\ c_log (compile_loop src prog pc line col) = [].
Proof.
  assert (Hfin : forall prog pc line col,
             0 <= pc <= PROGRAM_SIZE ->
             c_ok (compile_finish prog pc line col) = true ->
             pc < PROGRAM_SIZE
             /\ instr_count (c_prog (compile_finish prog pc line col)) = pc + 1
             /\ operator (instructions (c_prog (compile_finish prog pc line col)) pc) = OP_END
             /\ esp (c_prog (compile_finish prog pc line col)) = 0
             /\ c_log (compile_finish prog pc line col) = []).
  { intros prog pc line col Hpc. unfold compile_finish.
    destruct (pc =? PROGRAM_SIZE) eqn:E1; [discriminate|].
    destruct (esp prog =? 0) eqn:E2; [|discriminate]. op_facts. simpl. intros _.
    unfold PROGRAM_SIZE in *.
    repeat split; try lia; auto.
    - apply ushort_small. lia.
    - now rewrite upd_same. }
  induction src as [|a rest IH]; intros prog pc line col Hpc; cbn [compile_loop].
  - intros H. unfold glyph_count. simpl. rewrite !Z.add_0_r. now apply Hfin.
  - rewrite glyph_count_cons.
    destruct (pc <? PROGRAM_SIZE) eqn:Elt; op_facts.
    + destruct (is_glyph a) eqn:Eg.
      * pose proof (compile_char_glyph a prog pc line col Eg) as Hg.
        destruct (compile_char a prog pc line col) as [p pc1|p log]; [|discriminate].
        destruct Hg as [-> _].
        rewrite ushort_small by (unfold PROGRAM_SIZE in *; lia).
        replace (pc + (1 + glyph_count rest)) with (pc + 1 + glyph_count rest) by lia.
        destruct (Ascii.eqb a "010"); apply IH; lia.
      * rewrite compile_char_not_glyph by (auto; unfold PROGRAM_SIZE in *; lia).
        destruct (Ascii.eqb a "010"); apply IH; lia.
    + intros H. apply Hfin in H; lia.
Qed.

(** X3.  A program that [compile] accepts has one instruction per glyph of
    the source and the final [OP_END]: fewer than [PROGRAM_SIZE] glyphs,
    [instr_count] one more than their number, [OP_END] in the slot after the
    last glyph.  The bracket stack is left empty and nothing is reported. *)
Theorem X3_accepted_program_shape (fp : string) (prog : program_t) :
  c_ok (compile fp prog) = true ->
  glyph_count fp < PROGRAM_SIZE
  /\ instr_count (c_prog (compile fp prog)) = glyph_count fp + 1
  /\ operator (instructions (c_prog (compile fp prog)) (glyph_count fp)) = OP_END
  /\ esp (c_prog (compile fp prog)) = 0
  /\ c_log (compile fp prog) = [].
Proof.
  intros H. unfold compile in *.
  apply compile_loop_success in H; [|unfold PROGRAM_SIZE; lia].
  exact H.
Qed.

(** *** What the accepted program holds *)

Lemma glyph_at_app_old done x i :
  0 <= i < Z.of_nat (List.length done) -> glyph_at (done ++ x) i = glyph_at done i.
Proof. intros H. unfold glyph_at. apply app_nth1. lia. Qed.

Lemma glyph_at_app_new done c x :
  glyph_at (done ++ c :: x) (Z.of_nat (List.length done)) = c.
Proof. unfold glyph_at. rewrite Nat2Z.id. apply nth_middle. Qed.

Lemma length_snoc (done : list ascii) c :
  Z.of_nat (List.length (done ++ [c])) = Z.of_nat (List.length done) + 1.
Proof. rewrite length_app. simpl. lia. Qed.

Lemma opcode_range c : 0 <= opcode c <= 8.
Proof.
  unfold opcode, OP_INC, OP_DEC, OP_ADD, OP_SUB, OP_OUT, OP_IN, OP_JMP, OP_RET, OP_END.
  split_ifs; lia.
Qed.

Lemma compile_char_simple c prog pc line col :
  is_glyph c = true -> c <> "["%char -> c <> "]"%char ->
  compile_char c prog pc line col
  = Next (store_operator prog pc (opcode c)) (ushort (pc + 1)).
Proof.
  unfold is_glyph, compile_char, opcode. intros H Ho Hc.
  apply Ascii.eqb_neq in Ho, Hc. rewrite Ho, Hc in *.
  split_ifs; try reflexivity. simpl in H. discriminate.
Qed.

Lemma compile_char_open prog pc line col :
  esp prog <> STACK_SIZE ->
  compile_char "[" prog pc line col
  = Next (push (store_operator prog pc OP_JMP) pc) (ushort (pc + 1)).
Proof.
  intros H. unfold compile_char. simpl. apply Z.eqb_neq in H. now rewrite H.
Qed.

Lemma compile_char_close_next prog pc line col :
  esp prog <> 0 ->
  compile_char "]" prog pc line col
  = Next (store_operator
            (store_operand (store_operator (fst (pop prog)) pc OP_RET) pc (snd (pop prog)))
            (snd (pop prog)) pc)
         (ushort (pc + 1)).
Proof.
  intros H. unfold compile_char. simpl. apply Z.eqb_neq in H. now rewrite H.
Qed.

Lemma compiled_upto_nil prog : esp prog = 0 -> compiled_upto [] prog.
Proof.
  intros H. constructor; rewrite ?H; simpl; unfold STACK_SIZE; intros; lia.
Qed.

Lemma compiled_upto_simple done prog c :
  compiled_upto done prog ->
  is_glyph c = true -> c <> "["%char -> c <> "]"%char ->
  compiled_upto (done ++ [c]) (store_operator prog (Z.of_nat (List.length done)) (opcode c)).
Proof.
  intros [Hesp Hstack Hinc Hops Hlinks] Hg Ho Hc.
  set (here := Z.of_nat (List.length done)) in *.
  constructor; simpl; rewrite ?length_snoc; fold here.
  - exact Hesp.
  - intros k Hk. destruct (Hstack k Hk) as [Hr Hat].
    split; [lia|]. now rewrite glyph_at_app_old.
  - exact Hinc.
  - intros i Hi. destruct (Z.eq_dec i here) as [->|Hne].
    + intros _. rewrite upd_same. unfold here. rewrite glyph_at_app_new. simpl.
      apply ushort_small. pose proof (opcode_range c). lia.
    + rewrite upd_other by exact Hne. rewrite glyph_at_app_old by (unfold here in *; lia).
      apply Hops. lia.
  - intros i Hi. destruct (Z.eq_dec i here) as [->|Hne].
    + unfold here at 1. rewrite glyph_at_app_new. intros ->. contradiction.
    + rewrite glyph_at_app_old by (unfold here in *; lia). intros Hat.
      rewrite upd_other by exact Hne.
      destruct (Hlinks i ltac:(lia) Hat) as (Hr & Hj & Hback & Hoff).
      rewrite glyph_at_app_old by (unfold here in *; lia).
      rewrite upd_other by lia.
      repeat split; auto; lia.
Qed.

Lemma compiled_upto_open done prog :
  compiled_upto done prog ->
  esp prog <> STACK_SIZE ->
  Z.of_nat (List.length done) < PROGRAM_SIZE ->
  compiled_upto (done ++ ["["%char])
    (push (store_operator prog (Z.of_nat (List.length done)) OP_JMP)
          (Z.of_nat (List.length done))).
Proof.
  intros [Hesp Hstack Hinc Hops Hlinks] Hfull Hcap.
  set (here := Z.of_nat (List.length done)) in *.
  assert (Hpc : 0 <= here) by (unfold here; lia).
  assert (Hu : ushort here = here)
    by (apply ushort_small; unfold PROGRAM_SIZE in *; lia).
  assert (He : uint (esp prog + 1) = esp prog + 1)
    by (apply uint_small; unfold STACK_SIZE in *; lia).
  constructor; simpl; rewrite ?length_snoc, ?He, ?Hu; fold here.
  - unfold STACK_SIZE in *. lia.
  - intros k Hk. destruct (Z.eq_dec k (esp prog)) as [->|Hne].
    + rewrite upd_same. split; [lia|]. unfold here. apply glyph_at_app_new.
    + rewrite upd_other by exact Hne.
      destruct (Hstack k ltac:(lia)) as [Hr Hat].
      split; [lia|]. now rewrite glyph_at_app_old.
  - intros k k' Hk Hk'. rewrite (upd_other _ _ _ k) by lia.
    destruct (Z.eq_dec k' (esp prog)) as [->|Hne].
    + rewrite upd_same. destruct (Hstack k ltac:(lia)). lia.
    + rewrite upd_other by exact Hne. apply Hinc; lia.
  - intros i Hi. destruct (Z.eq_dec i here) as [->|Hne].
    + unfold here at 1. rewrite glyph_at_app_new. intros H. now contradiction H.
    + rewrite upd_other by exact Hne. rewrite glyph_at_app_old by (unfold here in *; lia).
      apply Hops. lia.
  - intros i Hi. destruct (Z.eq_dec i here) as [->|Hne].
    + unfold here at 1. rewrite glyph_at_app_new. discriminate.
    + rewrite glyph_at_app_old by (unfold here in *; lia). intros Hat.
      rewrite upd_other by exact Hne.
      destruct (Hlinks i ltac:(lia) Hat) as (Hr & Hj & Hback & Hoff).
      rewrite glyph_at_app_old by (unfold here in *; lia).
      rewrite upd_other by lia.
      repeat split; auto; try lia.
      intros k Hk. destruct (Z.eq_dec k (esp prog)) as [->|Hne'].
      * rewrite upd_same. lia.
      * rewrite upd_other by exact Hne'. apply Hoff. lia.
Qed.

Lemma compiled_upto_close done prog :
  compiled_upto done prog ->
  esp prog <> 0 ->
  Z.of_nat (List.length done) < PROGRAM_SIZE ->
  compiled_upto (done ++ ["]"%char])
    (store_operator
       (store_operand
          (store_operator (fst (pop prog)) (Z.of_nat (List.length done)) OP_RET)
          (Z.of_nat (List.length done)) (snd (pop prog)))
       (snd (pop prog)) (Z.of_nat (List.length done))).
Proof.
  intros [Hesp Hstack Hinc Hops Hlinks] Hnonempty Hcap.
  set (here := Z.of_nat (List.length done)) in *.
  set (prog' := store_operator _ _ _).
  assert (Hhere0 : 0 <= here) by (unfold here; lia).
  assert (He : uint (esp prog - 1) = esp prog - 1)
    by (apply uint_small; unfold STACK_SIZE in *; lia).
  set (jmp := stack prog (esp prog - 1)).
  destruct (Hstack (esp prog - 1) ltac:(lia)) as [Hjmp_range Hjmp_glyph].
  fold jmp in Hjmp_range, Hjmp_glyph.
  assert (Hpop : snd (pop prog) = jmp) by (unfold pop; simpl; now rewrite He).
  assert (Hesp' : esp prog' = esp prog - 1) by (unfold prog', pop; simpl; exact He).
  assert (Hstack' : stack prog' = stack prog) by reflexivity.
  assert (Hbelow : forall k, 0 <= k < esp prog - 1 -> stack prog k < jmp)
    by (intros k Hk; apply Hinc; lia).
  assert (Htop : stack prog (esp prog - 1) = jmp) by reflexivity.
  clearbody jmp.
  assert (Hujmp : ushort jmp = jmp)
    by (apply ushort_small; unfold PROGRAM_SIZE in *; lia).
  assert (Huhere : ushort here = here)
    by (apply ushort_small; unfold PROGRAM_SIZE in *; lia).
  assert (Hother : forall i, i <> here -> i <> jmp ->
                             instructions prog' i = instructions prog i).
  { intros i H1 H2. unfold prog'. rewrite Hpop. simpl.
    now rewrite !upd_other by assumption. }
  assert (Hat_here : instructions prog' here = {| operator := OP_RET; operand := jmp |}).
  { unfold prog'. rewrite Hpop. simpl. rewrite upd_other by lia.
    rewrite !upd_same. unfold set_operand, set_operator. simpl. now rewrite Hujmp. }
  assert (Hat_jmp : operator (instructions prog' jmp) = here).
  { unfold prog'. rewrite Hpop. simpl. rewrite upd_same. simpl. exact Huhere. }
  clearbody prog'.
  constructor; rewrite ?length_snoc, ?Hesp', ?Hstack'; fold here.
  - lia.
  - intros k Hk. destruct (Hstack k ltac:(lia)) as [Hr Hat].
    split; [lia|]. now rewrite glyph_at_app_old.
  - intros k k' Hk Hk'. apply Hinc; lia.
  - intros i Hi. destruct (Z.eq_dec i here) as [->|Hne].
    + intros _. rewrite Hat_here. unfold here. rewrite glyph_at_app_new. reflexivity.
    + rewrite glyph_at_app_old by (unfold here in *; lia). intros Hg.
      rewrite Hother; [apply Hops; [lia | exact Hg] | exact Hne |].
      intros ->. contradiction.
  - intros i Hi. destruct (Z.eq_dec i here) as [->|Hne].
    + intros _. rewrite Hat_here. simpl.
      rewrite glyph_at_app_old by (unfold here in *; lia).
      repeat split; try lia; auto.
      intros k Hk. specialize (Hbelow k Hk). lia.
    + rewrite glyph_at_app_old by (unfold here in *; lia). intros Hg.
      assert (Hij : i <> jmp).
      { intros ->. rewrite Hjmp_glyph in Hg. discriminate. }
      rewrite Hother by assumption.
      destruct (Hlinks i ltac:(lia) Hg) as (Hr & Hj & Hback & Hoff).
      rewrite glyph_at_app_old by (unfold here in *; lia).
      assert (Hjj : operand (instructions prog i) <> jmp).
      { intros Heq. apply (Hoff (esp prog - 1)); [lia | congruence]. }
      rewrite Hother by lia.
      repeat split; auto; try lia.
      intros k Hk. apply Hoff. lia.
Qed.

(** The slots below the one being written are final: the rest of the
    compilation and the final [OP_END] keep them. *)
Lemma compile_loop_compiled_upto src : forall done prog line col,
  compiled_upto done prog ->
  Z.of_nat (List.length done) <= PROGRAM_SIZE ->
  c_ok (compile_loop src prog (Z.of_nat (List.length done)) line col) = true ->
  compiled_upto (done ++ glyphs src)
    (c_prog (compile_loop src prog (Z.of_nat (List.length done)) line col)).
Proof.
  induction src as [|a rest IH]; intros done prog line col Hinv Hcap; cbn [compile_loop glyphs].
  - rewrite app_nil_r. unfold compile_finish.
    destruct (Z.of_nat (List.length done) =? PROGRAM_SIZE) eqn:E1; [discriminate|].
    destruct (esp prog =? 0) eqn:E2; [|discriminate]. op_facts. simpl. intros _.
    destruct Hinv as [Hesp Hstack Hinc Hops Hlinks].
    constructor; simpl; auto.
    + intros i Hi Hg. rewrite upd_other by lia. now apply Hops.
    + intros i Hi Hg. rewrite upd_other by lia.
      destruct (Hlinks i Hi Hg) as (Hr & Hj & Hback & Hoff).
      rewrite upd_other by lia. auto.
  - destruct (Z.of_nat (List.length done) <? PROGRAM_SIZE) eqn:Elt; op_facts.
    + destruct (is_glyph a) eqn:Eg.
      * assert (Hnext : forall p, compiled_upto (done ++ [a]) p ->
                  c_ok (if Ascii.eqb a "010"
                        then compile_loop rest p
                               (ushort (Z.of_nat (List.length done) + 1)) (line + 1) 1
                        else compile_loop rest p
                               (ushort (Z.of_nat (List.length done) + 1)) line (col + 1))
                  = true ->
                  compiled_upto (done ++ a :: glyphs rest)
                    (c_prog (if Ascii.eqb a "010"
                             then compile_loop rest p
                                    (ushort (Z.of_nat (List.length done) + 1)) (line + 1) 1
                             else compile_loop rest p
                                    (ushort (Z.of_nat (List.length done) + 1)) line (col + 1)))).
        { intros p Hp.
          rewrite ushort_small by (unfold PROGRAM_SIZE in *; lia).
          rewrite <- length_snoc with (c := a).
          replace (done ++ a :: glyphs rest) with ((done ++ [a]) ++ glyphs rest)
            by (rewrite <- app_assoc; reflexivity).
          destruct (Ascii.eqb a "010"); apply IH; auto;
            rewrite length_snoc; lia. }
        destruct (ascii_dec a "[") as [->|Hno].
        { destruct (Z.eq_dec (esp prog) STACK_SIZE) as [Hfull|Hfull].
          - unfold compile_char. simpl. apply Z.eqb_eq in Hfull. rewrite Hfull.
            discriminate.
          - rewrite compile_char_open by exact Hfull.
            apply Hnext. now apply compiled_upto_open. }
        destruct (ascii_dec a "]") as [->|Hnc].
        { destruct (Z.eq_dec (esp prog) 0) as [Hempty|Hempty].
          - unfold compile_char. simpl. apply Z.eqb_eq in Hempty. rewrite Hempty.
            discriminate.
          - rewrite compile_char_close_next by exact Hempty.
            apply Hnext. now apply compiled_upto_close. }
        rewrite compile_char_simple by assumption.
        apply Hnext. now apply compiled_upto_simple.
      * rewrite compile_char_not_glyph by (auto; unfold PROGRAM_SIZE in *; lia).
        destruct (Ascii.eqb a "010"); now apply IH.
    + unfold compile_finish.
      replace (Z.of_nat (List.length done) =? PROGRAM_SIZE) with true
        by (symmetry; apply Z.eqb_eq; lia).
      discriminate.
Qed.

(** X4.  In a program that [compile] accepts from an empty bracket stack,
    the slot of every glyph other than ['['] holds the operator of that
    glyph. *)
Theorem X4_accepted_program_operators (fp : string) (prog : program_t) (i : Z) :
  esp prog = 0 ->
  c_ok (compile fp prog) = true ->
  0 <= i < glyph_count fp ->
  glyph_at (glyphs fp) i <> "["%char ->
  operator (instructions (c_prog (compile fp prog)) i) = opcode (glyph_at (glyphs fp) i).
Proof.
  intros Hesp Hok Hi Hg.
  pose proof (compile_loop_compiled_upto fp [] prog 1 1 (compiled_upto_nil prog Hesp)
                ltac:(simpl; unfold PROGRAM_SIZE; lia) Hok) as Hinv.
  simpl in Hinv. now apply (upto_operators _ _ Hinv).
Qed.

(** X5.  In a program that [compile] accepts from an empty bracket stack,
    the operand of the slot of every [']'] is the slot of an earlier ['['],
    and the operator field of that slot holds the index of the [']']; so two
    [']'] never share an operand. *)
Theorem X5_accepted_program_links (fp : string) (prog : program_t) (i : Z) :
  esp prog = 0 ->
  c_ok (compile fp prog) = true ->
  0 <= i < glyph_count fp ->
  glyph_at (glyphs fp) i = "]"%char ->
  let p := c_prog (compile fp prog) in
  let j := operand (instructions p i) in
  0 <= j < i
  /\ glyph_at (glyphs fp) j = "["%char
  /\ operator (instructions p i) = OP_RET
  /\ operator (instructions p j) = i
  /\ (forall i', 0 <= i' < glyph_count fp -> glyph_at (glyphs fp) i' = "]"%char ->
      operand (instructions p i') = j -> i' = i).
Proof.
  intros Hesp Hok Hi Hg p j.
  pose proof (compile_loop_compiled_upto fp [] prog 1 1 (compiled_upto_nil prog Hesp)
                ltac:(simpl; unfold PROGRAM_SIZE; lia) Hok) as Hinv.
  simpl in Hinv. fold (compile fp prog) in Hinv. fold p in Hinv.
  destruct (upto_links _ _ Hinv i Hi Hg) as (Hr & Hj & Hback & _).
  fold j in Hr, Hj, Hback.
  repeat split; auto; try lia.
  - rewrite (upto_operators _ _ Hinv i Hi) by (rewrite Hg; discriminate).
    rewrite Hg. reflexivity.
  - intros i' Hi' Hg' Hop.
    destruct (upto_links _ _ Hinv i' Hi' Hg') as (_ & _ & Hback' & _).
    rewrite Hop in Hback'. congruence.
Qed.

(** *** Which sources are accepted *)

Lemma compile_loop_accepts src : forall prog pc line col,
  0 <= pc <= PROGRAM_SIZE ->
  0 <= esp prog <= STACK_SIZE ->
  c_ok (compile_loop src prog pc line col) = true
  <-> pc + glyph_count src < PROGRAM_SIZE /\ nesting (glyphs src) (esp prog) = Some 0.
Proof.
  induction src as [|a rest IH]; intros prog pc line col Hpc Hesp;
    cbn [compile_loop glyphs].
  - unfold glyph_count, compile_finish. simpl.
    destruct (pc =? PROGRAM_SIZE) eqn:E1; destruct (esp prog =? 0) eqn:E2;
      op_facts; simpl; split; try discriminate; try (intros [? [= ?]]; lia).
    + intros _. split; [lia | congruence].
  - rewrite glyph_count_cons.
    destruct (pc <? PROGRAM_SIZE) eqn:Elt; op_facts.
    + destruct (is_glyph a) eqn:Eg.
      * pose proof (compile_char_glyph a prog pc line col Eg) as Hg.
        cbn [nesting].
        destruct (compile_char a prog pc line col) as [p pc1|p log].
        -- destruct Hg as [-> Hcase].
           rewrite ushort_small by (unfold PROGRAM_SIZE in *; lia).
           assert (Hiff : forall l c,
                      c_ok (compile_loop rest p (pc + 1) l c) = true
                      <-> pc + 1 + glyph_count rest < PROGRAM_SIZE
                          /\ nesting (glyphs rest) (esp p) = Some 0).
           { intros l c. apply IH; [lia|].
             destruct Hcase as [(-> & Hne & ->) | [(-> & Hne & ->) | (_ & _ & ->)]];
               unfold STACK_SIZE in *; try rewrite uint_small by lia; lia. }
           replace (pc + (1 + glyph_count rest)) with (pc + 1 + glyph_count rest) by lia.
           destruct Hcase as [(-> & Hne & He) | [(-> & Hne & He) | (Ho & Hc & He)]].
           ++ simpl. apply Z.eqb_neq in Hne. rewrite Hne.
              rewrite Hiff, He. apply Z.eqb_neq in Hne.
              rewrite uint_small by (unfold STACK_SIZE in *; lia). reflexivity.
           ++ simpl. apply Z.eqb_neq in Hne. rewrite Hne.
              rewrite Hiff, He. apply Z.eqb_neq in Hne.
              rewrite uint_small by (unfold STACK_SIZE in *; lia). reflexivity.
           ++ apply Ascii.eqb_neq in Ho, Hc. rewrite Ho, Hc.
              destruct (Ascii.eqb a "010"); rewrite Hiff, He; reflexivity.
        -- destruct Hg as [_ [(-> & Hfull & _) | (-> & Hempty & _)]]; simpl.
           ++ apply Z.eqb_eq in Hfull. rewrite Hfull.
              split; [discriminate | intros [_ [=]]].
           ++ apply Z.eqb_eq in Hempty. rewrite Hempty.
              split; [discriminate | intros [_ [=]]].
      * rewrite compile_char_not_glyph by (auto; unfold PROGRAM_SIZE in *; lia).
        destruct (Ascii.eqb a "010"); apply IH; lia.
    + unfold compile_finish.
      replace (pc =? PROGRAM_SIZE) with true by (symmetry; apply Z.eqb_eq; lia).
      split; [simpl; discriminate|].
      intros [H _]. pose proof (glyph_count_nonneg rest).
      destruct (is_glyph a); lia.
Qed.

(** X6.  From an empty bracket stack, [compile] accepts exactly the sources
    with fewer than [PROGRAM_SIZE] glyphs whose brackets are balanced and
    never nested deeper than [STACK_SIZE]. *)
Theorem X6_compile_accepts_exactly_balanced_sources (fp : string) (prog : program_t) :
  esp prog = 0 ->
  c_ok (compile fp prog) = true
  <-> glyph_count fp < PROGRAM_SIZE /\ nesting (glyphs fp) 0 = Some 0.
Proof.
  intros Hesp. unfold compile. rewrite compile_loop_accepts.
  - rewrite Hesp. simpl. reflexivity.
  - unfold PROGRAM_SIZE. lia.
  - rewrite Hesp. unfold STACK_SIZE. lia.
Qed.

(** *** What a refused source reports *)

(** Compiling a prefix that fits and whose brackets do not fail leads to the
    compilation of the rest, at the position and depth the prefix gives. *)
Lemma compile_loop_prefix pre : forall rest prog pc line col d,
  0 <= pc ->
  pc + glyph_count pre < PROGRAM_SIZE ->
  0 <= esp prog <= STACK_SIZE ->
  nesting (glyphs pre) (esp prog) = Some d ->
  exists prog',
    compile_loop (pre ++ rest) prog pc line col
    = compile_loop rest prog' (pc + glyph_count pre)
        (fst (position_after pre line col)) (snd (position_after pre line col))
    /\ esp prog' = d
    /\ instr_count prog' = instr_count prog
    /\ 0 <= d <= STACK_SIZE.
Proof.
  induction pre as [|a pre IH]; intros rest prog pc line col d Hpc Hfit Hesp Hnest.
  - exists prog. simpl in *. injection Hnest as <-.
    unfold glyph_count. simpl. rewrite Z.add_0_r. auto.
  - rewrite glyph_count_cons in *.
    pose proof (glyph_count_nonneg pre) as Hnn.
    assert (Hlt : (pc <? PROGRAM_SIZE) = true)
      by (apply Z.ltb_lt; destruct (is_glyph a); lia).
    cbn [append compile_loop position_after]. rewrite Hlt.
    cbn [glyphs] in Hnest.
    destruct (is_glyph a) eqn:Eg.
    + pose proof (compile_char_glyph a prog pc line col Eg) as Hg.
      pose proof (compile_char_instr_count a prog pc line col) as Hcount.
      cbn [nesting] in Hnest.
      destruct (compile_char a prog pc line col) as [p pc1|p log]; simpl in Hcount.
      * destruct Hg as [-> Hcase].
        rewrite ushort_small by (unfold PROGRAM_SIZE in *; lia).
        replace (pc + (1 + glyph_count pre)) with (pc + 1 + glyph_count pre) by lia.
        assert (Hrec : nesting (glyphs pre) (esp p) = Some d /\ 0 <= esp p <= STACK_SIZE).
        { destruct Hcase as [(-> & Hne & ->) | [(-> & Hne & ->) | (Ho & Hc & ->)]].
          - simpl in Hnest. apply Z.eqb_neq in Hne. rewrite Hne in Hnest.
            apply Z.eqb_neq in Hne.
            rewrite uint_small by (unfold STACK_SIZE in *; lia). split; [auto | lia].
          - simpl in Hnest. apply Z.eqb_neq in Hne. rewrite Hne in Hnest.
            apply Z.eqb_neq in Hne.
            rewrite uint_small by (unfold STACK_SIZE in *; lia). split; [auto | lia].
          - apply Ascii.eqb_neq in Ho, Hc. rewrite Ho, Hc in Hnest. auto. }
        destruct Hrec as [Hn' He'].
        destruct (Ascii.eqb a "010");
          match goal with
          | |- context [compile_loop (pre ++ rest) p (pc + 1) ?l ?c] =>
              destruct (IH rest p (pc + 1) l c d ltac:(lia) ltac:(lia) He' Hn')
                as (prog' & -> & ? & ? & ?)
          end;
          exists prog'; repeat split; auto; first [congruence | lia].
      * exfalso.
        destruct Hg as [_ [(-> & Hfull & _) | (-> & Hempty & _)]]; simpl in Hnest.
        -- apply Z.eqb_eq in Hfull. rewrite Hfull in Hnest. discriminate.
        -- apply Z.eqb_eq in Hempty. rewrite Hempty in Hnest. discriminate.
    + rewrite compile_char_not_glyph by (auto; unfold PROGRAM_SIZE in *; lia).
      destruct (Ascii.eqb a "010"); apply IH; auto; lia.
Qed.

(** X7.  From an empty bracket stack, the first bracket that cannot be
    handled is reported at its own line and column: a [']'] that follows a
    balanced prefix as "unmatched ']'", and a ['['] that follows a prefix
    of depth [STACK_SIZE] as "loop count exceeds", provided the prefix has
    fewer than [PROGRAM_SIZE] glyphs.  The source is refused. *)
Theorem X7_offending_bracket_is_reported_where_it_is
    (pre post : string) (prog : program_t) (d : Z) :
  esp prog = 0 ->
  glyph_count pre < PROGRAM_SIZE ->
  nesting (glyphs pre) 0 = Some d ->
  (d = 0 ->
   c_ok (compile (pre ++ String "]" post) prog) = false
   /\ c_log (compile (pre ++ String "]" post) prog)
      = [CompileError (fst (position_of pre)) (snd (position_of pre)) UnmatchedClose])
  /\ (d = STACK_SIZE ->
      c_ok (compile (pre ++ String "[" post) prog) = false
      /\ c_log (compile (pre ++ String "[" post) prog)
         = [CompileError (fst (position_of pre)) (snd (position_of pre)) LoopCountExceeds]).
Proof.
  intros Hesp Hfit Hnest.
  assert (He : 0 <= esp prog <= STACK_SIZE) by (rewrite Hesp; unfold STACK_SIZE; lia).
  rewrite <- Hesp in Hnest.
  pose proof (glyph_count_nonneg pre) as Hnn.
  split; intros ->; unfold compile, position_of.
  - destruct (compile_loop_prefix pre (String "]" post) prog 0 1 1 0
                ltac:(lia) ltac:(lia) He Hnest) as (prog' & -> & Hesp' & _).
    cbn [compile_loop].
    replace (0 + glyph_count pre <? PROGRAM_SIZE) with true
      by (symmetry; apply Z.ltb_lt; lia).
    unfold compile_char. simpl. rewrite Hesp'. simpl. auto.
  - destruct (compile_loop_prefix pre (String "[" post) prog 0 1 1 STACK_SIZE
                ltac:(lia) ltac:(lia) He Hnest) as (prog' & -> & Hesp' & _).
    cbn [compile_loop].
    replace (0 + glyph_count pre <? PROGRAM_SIZE) with true
      by (symmetry; apply Z.ltb_lt; lia).
    unfold compile_char. simpl. rewrite Hesp'. simpl. auto.
Qed.

(** X8.  From an empty bracket stack, a source that fits and ends with
    [d > 0] brackets still open is refused without a message, its
    instruction count is not recorded, and [d] entries stay on the bracket
    stack. *)
Theorem X8_unclosed_brackets_are_refused_silently
    (fp : string) (prog : program_t) (d : Z) :
  esp prog = 0 ->
  glyph_count fp < PROGRAM_SIZE ->
  nesting (glyphs fp) 0 = Some d ->
  0 < d ->
  c_ok (compile fp prog) = false
  /\ c_log (compile fp prog) = []
  /\ esp (c_prog (compile fp prog)) = d
  /\ instr_count (c_prog (compile fp prog)) = instr_count prog.
Proof.
  intros Hesp Hfit Hnest Hd.
  assert (He : 0 <= esp prog <= STACK_SIZE) by (rewrite Hesp; unfold STACK_SIZE; lia).
  rewrite <- Hesp in Hnest.
  pose proof (glyph_count_nonneg fp) as Hnn.
  destruct (compile_loop_prefix fp EmptyString prog 0 1 1 d
              ltac:(lia) ltac:(lia) He Hnest) as (prog' & Heq & Hesp' & Hcount & _).
  unfold compile.
  replace fp with (fp ++ EmptyString)%string at 1 2 3 4.
  - rewrite Heq. cbn [compile_loop]. unfold compile_finish.
    replace (0 + glyph_count fp =? PROGRAM_SIZE) with false
      by (symmetry; apply Z.eqb_neq; lia).
    replace (esp prog' =? 0) with false by (symmetry; apply Z.eqb_neq; lia).
    simpl. auto.
  - clear. induction fp as [|a fp IH]; simpl; [reflexivity | now rewrite IH].
Qed.

(** X9.  From an empty bracket stack, when the glyph number [PROGRAM_SIZE]
    of a source is reached without a bracket failure, that glyph is still
    compiled and the source is then refused with "instruction count
    exceeds", reported at the column after that glyph: a program holds at
    most [PROGRAM_SIZE - 1] instructions and the final [OP_END]. *)
Theorem X9_too_large_is_reported_after_the_last_slot
    (pre post : string) (g : ascii) (prog : program_t) (d : Z) :
  esp prog = 0 ->
  glyph_count pre = PROGRAM_SIZE - 1 ->
  nesting (glyphs pre) 0 = Some d ->
  is_glyph g = true ->
  (g = "["%char -> d <> STACK_SIZE) ->
  (g = "]"%char -> d <> 0) ->
  c_ok (compile (pre ++ String g post) prog) = false
  /\ c_log (compile (pre ++ String g post) prog)
     = [CompileError (fst (position_of pre)) (snd (position_of pre) + 1)
          InstrCountExceeds].
Proof.
  intros Hesp Hcount Hnest Hg Hopen Hclose.
  assert (He : 0 <= esp prog <= STACK_SIZE) by (rewrite Hesp; unfold STACK_SIZE; lia).
  rewrite <- Hesp in Hnest.
  destruct (compile_loop_prefix pre (String g post) prog 0 1 1 d
              ltac:(lia) ltac:(unfold PROGRAM_SIZE in *; lia) He Hnest)
    as (prog' & Heq & Hesp' & _).
  unfold compile, position_of. rewrite Heq. cbn [compile_loop].
  rewrite Hcount.
  replace (0 + (PROGRAM_SIZE - 1) <? PROGRAM_SIZE) with true by reflexivity.
  pose proof (compile_char_glyph g prog' (0 + (PROGRAM_SIZE - 1))
                (fst (position_after pre 1 1)) (snd (position_after pre 1 1)) Hg) as Hc.
  destruct (compile_char g prog' _ _ _) as [p pc1|p log].
  - destruct Hc as [-> _].
    replace (ushort (0 + (PROGRAM_SIZE - 1) + 1)) with PROGRAM_SIZE by reflexivity.
    assert (Hnl : Ascii.eqb g "010" = false).
    { apply Ascii.eqb_neq. intros ->. discriminate. }
    rewrite Hnl.
    destruct (compile_loop_at_capacity post p (fst (position_after pre 1 1))
                (snd (position_after pre 1 1) + 1)) as (-> & _ & ->).
    auto.
  - exfalso. rewrite Hesp' in Hc.
    destruct Hc as [_ [(-> & Hfull & _) | (-> & Hempty & _)]].
    + exact (Hopen eq_refl Hfull).
    + exact (Hclose eq_refl Hempty).
Qed.

(** *** Instances *)

Lemma X1_witness :
  esp program_init = esp (c_prog (compile "+[]" program_init))
  /\ c_log (compile "]" (c_prog (compile "+[]" program_init)))
     = c_log (compile "]" program_init).
Proof.
  assert (H : esp program_init = esp (c_prog (compile "+[]" program_init)))
    by reflexivity.
  split; [exact H|].
  destruct (X1_compile_verdict_depends_on_esp_only "]" _ _ H) as (_ & Hlog & _).
  symmetry. exact Hlog.
Defined.

Lemma X3_witness :
  c_ok (compile "++>+<-." program_init) = true
  /\ instr_count (c_prog (compile "++>+<-." program_init)) = 8.
Proof.
  assert (H : c_ok (compile "++>+<-." program_init) = true) by reflexivity.
  split; [exact H|].
  destruct (X3_accepted_program_shape _ _ H) as (_ & Hcount & _).
  rewrite Hcount. reflexivity.
Defined.

Lemma X4_witness :
  esp program_init = 0
  /\ c_ok (compile "+[-]" program_init) = true
  /\ 0 <= 3 < glyph_count "+[-]"
  /\ operator (instructions (c_prog (compile "+[-]" program_init)) 3) = OP_RET.
Proof.
  assert (H1 : esp program_init = 0) by reflexivity.
  assert (H2 : c_ok (compile "+[-]" program_init) = true) by reflexivity.
  assert (H3 : 0 <= 3 < glyph_count "+[-]") by (vm_compute; split; [discriminate | reflexivity]).
  split; [exact H1|]. split; [exact H2|]. split; [exact H3|].
  rewrite (X4_accepted_program_operators "+[-]" program_init 3 H1 H2 H3).
  - reflexivity.
  - vm_compute. discriminate.
Defined.

Lemma X5_witness :
  esp program_init = 0
  /\ c_ok (compile "+[-]" program_init) = true
  /\ 0 <= 3 < glyph_count "+[-]"
  /\ glyph_at (glyphs "+[-]") 3 = "]"%char
  /\ operator (instructions (c_prog (compile "+[-]" program_init))
                 (operand (instructions (c_prog (compile "+[-]" program_init)) 3))) = 3.
Proof.
  assert (H1 : esp program_init = 0) by reflexivity.
  assert (H2 : c_ok (compile "+[-]" program_init) = true) by reflexivity.
  assert (H3 : 0 <= 3 < glyph_count "+[-]") by (vm_compute; split; [discriminate | reflexivity]).
  assert (H4 : glyph_at (glyphs "+[-]") 3 = "]"%char) by reflexivity.
  split; [exact H1|]. split; [exact H2|]. split; [exact H3|]. split; [exact H4|].
  destruct (X5_accepted_program_links "+[-]" program_init 3 H1 H2 H3 H4)
    as (_ & _ & _ & Hback & _).
  exact Hback.
Defined.

Lemma X6_witness :
  esp program_init = 0
  /\ (c_ok (compile "[[]" program_init) = true
      <-> glyph_count "[[]" < PROGRAM_SIZE /\ nesting (glyphs "[[]") 0 = Some 0).
Proof.
  split; [reflexivity|].
  apply (X6_compile_accepts_exactly_balanced_sources "[[]" program_init). reflexivity.
Defined.

Lemma X7_witness :
  esp program_init = 0
  /\ glyph_count "+[-]" < PROGRAM_SIZE
  /\ nesting (glyphs "+[-]") 0 = Some 0
  /\ c_log (compile ("+[-]" ++ String "]" "+") program_init)
     = [CompileError 1 5 UnmatchedClose].
Proof.
  assert (H1 : esp program_init = 0) by reflexivity.
  assert (H2 : glyph_count "+[-]" < PROGRAM_SIZE) by reflexivity.
  assert (H3 : nesting (glyphs "+[-]") 0 = Some 0) by reflexivity.
  split; [exact H1|]. split; [exact H2|]. split; [exact H3|].
  destruct (X7_offending_bracket_is_reported_where_it_is "+[-]" "+" program_init 0
              H1 H2 H3) as [Hclose _].
  destruct (Hclose eq_refl) as [_ Hlog]. exact Hlog.
Defined.

Lemma X8_witness :
  esp program_init = 0
  /\ glyph_count "[[+]" < PROGRAM_SIZE
  /\ nesting (glyphs "[[+]") 0 = Some 1
  /\ 0 < 1
  /\ c_log (compile "[[+]" program_init) = []
  /\ esp (c_prog (compile "[[+]" program_init)) = 1.
Proof.
  assert (H1 : esp program_init = 0) by reflexivity.
  assert (H2 : glyph_count "[[+]" < PROGRAM_SIZE) by reflexivity.
  assert (H3 : nesting (glyphs "[[+]") 0 = Some 1) by reflexivity.
  assert (H4 : 0 < 1) by reflexivity.
  destruct (X8_unclosed_brackets_are_refused_silently "[[+]" program_init 1 H1 H2 H3 H4)
    as (_ & Hlog & Hesp & _).
  split; [exact H1|]. split; [exact H2|]. split; [exact H3|]. split; [exact H4|].
  split; [exact Hlog | exact Hesp].
Defined.

Lemma X9_witness :
  esp program_init = 0
  /\ glyph_count (plus_source 4095) = PROGRAM_SIZE - 1
  /\ nesting (glyphs (plus_source 4095)) 0 = Some 0
  /\ c_log (compile (plus_source 4095 ++ String "+" EmptyString) program_init)
     = [CompileError 1 4097 InstrCountExceeds].
Proof.
  assert (H1 : esp program_init = 0) by reflexivity.
  assert (H2 : glyph_count (plus_source 4095) = PROGRAM_SIZE - 1)
    by (vm_compute; reflexivity).
  assert (H3 : nesting (glyphs (plus_source 4095)) 0 = Some 0)
    by (vm_compute; reflexivity).
  split; [exact H1|]. split; [exact H2|]. split; [exact H3|].
  pose proof (X9_too_large_is_reported_after_the_last_slot (plus_source 4095)
                EmptyString "+"
                program_init 0 H1 H2 H3 eq_refl) as H.
  destruct H as [_ Hlog].
  - discriminate.
  - discriminate.
  - refine (eq_trans Hlog _). vm_compute. reflexivity.
Defined.

(** ** Sessions *)

Lemma session_dbg_next_loop n : forall st ret,
  session st -> session (fst (dbg_next_loop n st ret)).
Proof.
  induction n as [|n IH]; intros st ret H; simpl.
  - exact H.
  - pose proof (session_step st H) as Hs.
    destruct (step st) as [st' r]. simpl in Hs.
    destruct r; [exact Hs | now apply IH].
Qed.

Lemma session_dbg_next st count : session st -> session (fst (dbg_next st count)).
Proof.
  intros H. unfold dbg_next. destruct (count <? 0).
  - now apply session_emit.
  - now apply session_dbg_next_loop.
Qed.

Lemma session_continue_loop fuel : forall st st',
  session st -> continue_loop fuel st = Some st' -> session st'.
Proof.
  induction fuel as [|fuel IH]; intros st st' H; simpl.
  - discriminate.
  - pose proof (session_dbg_next st 1 H) as Hs.
    destruct (dbg_next st 1) as [st1 r]. simpl in Hs.
    destruct r; [now intros [= <-] | now apply IH].
Qed.

Lemma session_bfdb_c_continue_loop fuel : forall st st',
  session st -> BfdbC.continue_loop fuel st = Some st' -> session st'.
Proof.
  induction fuel as [|fuel IH]; intros st st' H; simpl.
  - discriminate.
  - pose proof (session_step st H) as Hs. unfold BfdbC.dbg_next.
    destruct (step st) as [st1 r]. simpl in Hs.
    destruct r; [now intros [= <-] | now apply IH].
Qed.

Lemma session_to_int st str allow_neg :
  session st -> session (fst (to_int st str allow_neg)).
Proof. intros H. unfold to_int. split_ifs; simpl; auto using session_emit. Qed.

Lemma session_dbg_jump st index : session st -> session (dbg_jump st index).
Proof.
  intros H. unfold dbg_jump. split_ifs; auto using session_emit, session_jump.
Qed.

Lemma session_dbg_print st index : session st -> session (dbg_print st index).
Proof. intros H. unfold dbg_print. split_ifs; auto using session_emit. Qed.

(** Every state of a session is made of the elementary moves. *)
Lemma reachable_session st : reachable st -> session st.
Proof.
  induction 1.
  - apply session_init.
  - unfold cmd_file. destruct file_name; auto using session_emit, session_load.
  - now apply session_load_bfdb_c.
  - unfold cmd_run. destruct (loaded st) eqn:E; auto using session_emit, session_run.
  - now apply session_step.
  - unfold cmd_next. destruct (running (runtime st)); [|now apply session_emit].
    destruct count as [c|]; [|now apply session_dbg_next].
    pose proof (session_to_int st c false IHreachable) as Ht.
    destruct (to_int st c false) as [st1 ok]. simpl in Ht.
    destruct ok; [now apply session_dbg_next | exact Ht].
  - unfold cmd_jump. destruct (running (runtime st)); [|now apply session_emit].
    destruct index as [c|]; [|now apply session_emit].
    pose proof (session_to_int st c false IHreachable) as Ht.
    destruct (to_int st c false) as [st1 ok]. simpl in Ht.
    destruct ok; [now apply session_dbg_jump | exact Ht].
  - unfold BfdbC.cmd_next, BfdbC.dbg_next.
    destruct (running (runtime st)); auto using session_emit, session_step.
  - unfold BfdbC.cmd_jump. destruct (running (runtime st)); [|now apply session_emit].
    destruct index; auto using session_emit, session_dbg_jump.
  - unfold cmd_continue in H0. destruct (running (runtime st)).
    + eapply session_continue_loop; eassumption.
    + injection H0 as <-. now apply session_emit.
  - unfold BfdbC.cmd_continue in H0. destruct (running (runtime st)).
    + eapply session_bfdb_c_continue_loop; eassumption.
    + injection H0 as <-. now apply session_emit.
  - unfold cmd_dataptr, dbg_print_dataptr.
    destruct (running (runtime st)); now apply session_emit.
  - unfold cmd_print. destruct (running (runtime st)); [|now apply session_emit].
    destruct index as [c|]; [|now apply session_dbg_print].
    pose proof (session_to_int st c false IHreachable) as Ht.
    destruct (to_int st c false) as [st1 ok]. simpl in Ht.
    destruct ok; [now apply session_dbg_print | exact Ht].
  - unfold BfdbC.cmd_print. destruct (running (runtime st)); [|now apply session_emit].
    destruct index; now apply session_dbg_print.
  - unfold cmd_tape, dbg_print_tape.
    destruct (running (runtime st)); now apply session_emit.
Qed.

(** *** What every state of a session satisfies *)

Lemma dbg_interpret_cells st i :
  cells_in_range st -> cells_in_range (fst (dbg_interpret st i)).
Proof.
  unfold cells_in_range, dbg_interpret, next_pc. intros H.
  pose proof (getchar_runtime st) as Hg.
  destruct (getchar st) as [st1 c]. simpl in Hg.
  split_ifs; simpl; intros k; rewrite ?Hg; auto;
    unfold upd; destruct (k =? _); auto using ushort_range.
Qed.

Lemma session_cells_in_range st : session st -> cells_in_range st.
Proof.
  induction 1; try assumption.
  - intros k. simpl. lia.
  - now apply dbg_interpret_cells.
  - intros k. simpl. lia.
  - unfold dbg_load. destruct (fs file_name); split_ifs; assumption.
  - unfold BfdbC.dbg_load. destruct (fs file_name); split_ifs; assumption.
Qed.

Lemma dbg_interpret_loaded st i : loaded (fst (dbg_interpret st i)) = loaded st.
Proof.
  unfold dbg_interpret, next_pc.
  assert (Hg : loaded (fst (getchar st)) = loaded st)
    by (unfold getchar; now destruct (stdin st)).
  destruct (getchar st) as [st1 c]. simpl in Hg.
  split_ifs; simpl; auto.
Qed.

Lemma dbg_interpret_running st i :
  running (runtime (fst (dbg_interpret st i))) = true -> running (runtime st) = true.
Proof.
  unfold dbg_interpret, next_pc.
  pose proof (getchar_runtime st) as Hg.
  destruct (getchar st) as [st1 c]. simpl in Hg.
  split_ifs; simpl; rewrite ?Hg; auto; discriminate.
Qed.

Lemma session_running_loaded st :
  session st -> running (runtime st) = true -> loaded st = true.
Proof.
  induction 1.
  - discriminate.
  - exact IHsession.
  - intros Hr. unfold step in *. rewrite dbg_interpret_loaded.
    apply IHsession. eapply dbg_interpret_running. exact Hr.
  - exact IHsession.
  - intros _. assumption.
  - unfold dbg_load. destruct (fs file_name); split_ifs; simpl; discriminate.
  - unfold BfdbC.dbg_load. destruct (fs file_name); split_ifs; simpl; discriminate.
Qed.

Lemma bfdb_c_compile_char_pc c prog pc :
  0 <= pc < 65535 ->
  match BfdbC.compile_char c prog pc with
  | BfdbC.Next _ pc' => pc' = if is_glyph c then pc + 1 else pc
  | BfdbC.ReturnFalse _ => True
  end.
Proof.
  intros Hpc. unfold BfdbC.compile_char, is_glyph, pop.
  assert (H1 : ushort (pc + 1) = pc + 1) by (apply ushort_small; lia).
  assert (H2 : ushort (ushort (pc - 1) + 1) = pc).
  { unfold ushort. destruct (Z.eq_dec pc 0) as [->|Hne]; [reflexivity|].
    rewrite (Z.mod_small (pc - 1)) by lia.
    replace (pc - 1 + 1) with pc by lia. apply Z.mod_small. lia. }
  repeat (match goal with
          | |- context [Ascii.eqb c ?x] => destruct (Ascii.eqb c x)
          end; cbn [orb]);
    split_ifs; auto.
Qed.

Lemma bfdb_c_compile_loop_success src : forall prog pc,
  0 <= pc <= PROGRAM_SIZE ->
  c_ok (BfdbC.compile_loop src prog pc) = true ->
  pc + glyph_count src < PROGRAM_SIZE
  /\ instr_count (c_prog (BfdbC.compile_loop src prog pc)) = pc + glyph_count src + 1
  /\ operator (instructions (c_prog (BfdbC.compile_loop src prog pc))
                (pc + glyph_count src)) = OP_END
  /\ esp (c_prog (BfdbC.compile_loop src prog pc)) = 0.
Proof.
  assert (Hfin : forall prog pc,
             0 <= pc <= PROGRAM_SIZE ->
             c_ok (BfdbC.compile_finish prog pc) = true ->
             pc < PROGRAM_SIZE
             /\ instr_count (c_prog (BfdbC.compile_finish prog pc)) = pc + 1
             /\ operator (instructions (c_prog (BfdbC.compile_finish prog pc)) pc) = OP_END
             /\ esp (c_prog (BfdbC.compile_finish prog pc)) = 0).
  { intros prog pc Hpc. unfold BfdbC.compile_finish.
    destruct (esp prog =? 0) eqn:E2; [|discriminate].
    destruct (pc =? PROGRAM_SIZE) eqn:E1; [discriminate|]. op_facts. simpl. intros _.
    unfold PROGRAM_SIZE in *.
    repeat split; try lia; auto.
    - apply ushort_small. lia.
    - now rewrite upd_same. }
  induction src as [|a rest IH]; intros prog pc Hpc; cbn [BfdbC.compile_loop].
  - intros H. unfold glyph_count. simpl. rewrite !Z.add_0_r. now apply Hfin.
  - rewrite glyph_count_cons.
    destruct (pc <? PROGRAM_SIZE) eqn:Elt; op_facts.
    + pose proof (bfdb_c_compile_char_pc a prog pc
                    ltac:(unfold PROGRAM_SIZE in *; lia)) as Hc.
      destruct (BfdbC.compile_char a prog pc) as [p pc1|p]; [|discriminate].
      subst pc1. destruct (is_glyph a).
      * replace (pc + (1 + glyph_count rest)) with (pc + 1 + glyph_count rest) by lia.
        apply IH. lia.
      * apply IH. lia.
    + intros H. apply Hfin in H; lia.
Qed.

Lemma dbg_load_installs fs st file_name :
  match fs file_name with
  | Some fp =>
      program (dbg_load fs st file_name) = c_prog (compile fp (program st))
      /\ loaded (dbg_load fs st file_name) = c_ok (compile fp (program st))
  | None =>
      program (dbg_load fs st file_name) = program st
      /\ loaded (dbg_load fs st file_name) = loaded st
  end.
Proof.
  unfold dbg_load. destruct (fs file_name) as [fp|]; simpl; [|auto].
  destruct (c_ok (compile fp (program st))); simpl; auto.
Qed.

Lemma bfdb_c_dbg_load_installs fs st file_name :
  match fs file_name with
  | Some fp =>
      program (BfdbC.dbg_load fs st file_name) = c_prog (BfdbC.compile fp (program st))
      /\ loaded (BfdbC.dbg_load fs st file_name) = c_ok (BfdbC.compile fp (program st))
  | None =>
      program (BfdbC.dbg_load fs st file_name) = program st
      /\ loaded (BfdbC.dbg_load fs st file_name) = loaded st
  end.
Proof.
  unfold BfdbC.dbg_load. destruct (fs file_name) as [fp|]; simpl; [|auto].
  destruct (c_ok (BfdbC.compile fp (program st))); simpl; auto.
Qed.

Lemma session_program_ended st : session st -> loaded st = true -> program_ended st.
Proof.
  induction 1; [discriminate | exact IHsession | | exact IHsession | exact IHsession | |].
  - unfold step. rewrite dbg_interpret_loaded. intros Hl.
    unfold program_ended. rewrite dbg_interpret_program. now apply IHsession.
  - pose proof (dbg_load_installs fs st file_name) as Hi.
    destruct (fs file_name) as [fp|]; destruct Hi as [Hp Hl];
      unfold program_ended; rewrite Hp, Hl; [|exact IHsession].
    intros Hok. unfold compile in *.
    apply compile_loop_success in Hok; [|unfold PROGRAM_SIZE; lia].
    destruct Hok as (Hfit & Hcount & Hend & Hesp & _).
    pose proof (glyph_count_nonneg fp).
    simpl in Hcount, Hend, Hesp. rewrite Hcount.
    replace (glyph_count fp + 1 - 1) with (glyph_count fp) by lia.
    repeat split; auto; lia.
  - pose proof (bfdb_c_dbg_load_installs fs st file_name) as Hi.
    destruct (fs file_name) as [fp|]; destruct Hi as [Hp Hl];
      unfold program_ended; rewrite Hp, Hl; [|exact IHsession].
    intros Hok. unfold BfdbC.compile in *.
    apply bfdb_c_compile_loop_success in Hok; [|unfold PROGRAM_SIZE; lia].
    destruct Hok as (Hfit & Hcount & Hend & Hesp).
    pose proof (glyph_count_nonneg fp).
    simpl in Hcount, Hend, Hesp. rewrite Hcount.
    replace (glyph_count fp + 1 - 1) with (glyph_count fp) by lia.
    repeat split; auto; lia.
Qed.

(** X10.  In every state of a session each cell of the tape holds a value
    between 0 and 65535. *)
Theorem X10_cells_are_unsigned_shorts (st : bfdb) (k : Z) :
  reachable st -> 0 <= data (runtime st) k < 65536.
Proof. intros H. now apply session_cells_in_range, reachable_session. Qed.

(** X11.  In every state of a session, a running session has a loaded
    program. *)
Theorem X11_running_session_has_a_program (st : bfdb) :
  reachable st -> running (runtime st) = true -> loaded st = true.
Proof. intros H. now apply session_running_loaded, reachable_session. Qed.

(** X12.  In every state of a session with a loaded program, the program
    has between 1 and [PROGRAM_SIZE] instructions, its last instruction is
    [OP_END], and the bracket stack is empty. *)
Theorem X12_loaded_program_ends_with_op_end (st : bfdb) :
  reachable st -> loaded st = true ->
  1 <= instr_count (program st) <= PROGRAM_SIZE
  /\ operator (instructions (program st) (instr_count (program st) - 1)) = OP_END
  /\ esp (program st) = 0.
Proof. intros H. now apply session_program_ended, reachable_session. Qed.

(** X13.  In a running session, [jump] to the last instruction followed by
    [next] ends the run normally: the message of [OP_END] is written, the
    session stops running, and nothing else changes. *)
Theorem X13_jump_to_the_end_then_next_exits (st : bfdb) :
  reachable st -> running (runtime st) = true ->
  let last := {| as_int := instr_count (program st); converted := true |} in
  cmd_next (cmd_jump st (Some last)) None
  = set_running (emit (set_pc st (instr_count (program st) - 1)) ExitedNormally) false.
Proof.
  intros Hreach Hrun last.
  pose proof (session_running_loaded st (reachable_session st Hreach) Hrun) as Hloaded.
  destruct (session_program_ended st (reachable_session st Hreach) Hloaded)
    as (Hcount & Hend & _).
  unfold cmd_jump, to_int, last. rewrite Hrun. simpl.
  replace (instr_count (program st) <? 0) with false
    by (symmetry; apply Z.ltb_ge; lia).
  simpl. unfold dbg_jump.
  replace (instr_count (program st) <? 1) with false
    by (symmetry; apply Z.ltb_ge; lia).
  rewrite Z.gtb_ltb, Z.ltb_irrefl. simpl.
  unfold cmd_next. simpl. rewrite Hrun.
  rewrite dbg_next_one. unfold step. simpl.
  rewrite ushort_small by (unfold PROGRAM_SIZE in *; lia).
  unfold dbg_interpret. rewrite Hend. reflexivity.
Qed.

(** ** Stepping, continued *)

Lemma step_true_not_running st :
  snd (step st) = true -> running (runtime (fst (step st))) = false.
Proof.
  unfold step. destruct (dbg_interpret st _) as [st' r] eqn:E. simpl. intros ->.
  destruct (dbg_interpret_true _ _ _ E) as [[_ ->] | [[_ ->] | [_ ->]]]; reflexivity.
Qed.

Lemma stops_at_one st : snd (step st) = true -> stops_at st 1.
Proof.
  intros H. split; [lia|]. split; [exact H|]. intros m Hm. simpl in Hm. lia.
Qed.

Lemma stops_at_succ st n :
  snd (step st) = false -> stops_at (fst (step st)) n -> stops_at st (S n).
Proof.
  intros Hs (Hn & Hstop & Hbefore). split; [lia|]. split.
  - simpl. rewrite Nat.sub_0_r. destruct n; [lia|]. simpl in *.
    now rewrite Nat.sub_0_r in Hstop.
  - intros m Hm. destruct m as [|m]; [exact Hs|]. simpl. apply Hbefore. lia.
Qed.

Lemma stops_at_inv st n :
  stops_at st n ->
  (n = 1%nat /\ snd (step st) = true)
  \/ (exists n', n = S n' /\ snd (step st) = false /\ stops_at (fst (step st)) n').
Proof.
  intros (Hn & Hstop & Hbefore). destruct n as [|[|n]]; [lia | left | right].
  - split; [reflexivity | exact Hstop].
  - exists (S n). split; [reflexivity|]. split; [apply (Hbefore O); lia|].
    split; [lia|]. split.
    + simpl in *. now rewrite Nat.sub_0_r.
    + intros m Hm. apply (Hbefore (S m)). lia.
Qed.

Lemma stops_at_not_running st n :
  stops_at st n -> running (runtime (steps n st)) = false.
Proof.
  revert st. induction n as [|n IH]; intros st H.
  - destruct H as [H _]. lia.
  - destruct (stops_at_inv _ _ H) as [[Hn Hs] | (n' & Hn & Hs & Hrest)].
    + injection Hn as ->. simpl. now apply step_true_not_running.
    + injection Hn as ->. simpl. now apply IH.
Qed.

Lemma continue_loop_stops fuel : forall st n,
  stops_at st n ->
  continue_loop fuel st = if (n <=? fuel)%nat then Some (steps n st) else None.
Proof.
  induction fuel as [|fuel IH]; intros st n H.
  - destruct H as [H _]. destruct n; [lia | reflexivity].
  - cbn [continue_loop]. rewrite dbg_next_one.
    destruct (stops_at_inv _ _ H) as [[-> Hs] | (n' & -> & Hs & Hrest)].
    + destruct (step st) as [st' r] eqn:E. simpl in Hs. subst r.
      simpl. now rewrite E.
    + destruct (step st) as [st' r] eqn:E. simpl in Hs, Hrest. subst r.
      rewrite (IH st' n' Hrest). simpl. now rewrite E.
Qed.

Lemma continue_loop_runs_through fuel : forall st,
  runs_through st fuel -> continue_loop fuel st = None.
Proof.
  induction fuel as [|fuel IH]; intros st H; [reflexivity|].
  cbn [continue_loop]. rewrite dbg_next_one.
  pose proof (H O ltac:(lia)) as H0. simpl in H0.
  destruct (step st) as [st' r] eqn:E. simpl in H0. subst r.
  apply IH. intros m Hm. specialize (H (S m) ltac:(lia)). simpl in H.
  now rewrite E in H.
Qed.

(** X14.  In a running session [continue] is [next] repeated up to the
    first instruction that halts or faults: when that is the [n]-th
    instruction, the loop of [continue] ends after [n] iterations, never
    earlier, in the state reached by those [n] instructions, and the
    session is then not running; while no instruction halts or faults the
    loop does not end. *)
Theorem X14_continue_runs_to_the_first_stop (st : bfdb) (n : nat) :
  running (runtime st) = true ->
  stops_at st n ->
  (forall fuel, (n <= fuel)%nat -> cmd_continue fuel st = Some (steps n st))
  /\ (forall fuel, (fuel < n)%nat -> cmd_continue fuel st = None)
  /\ running (runtime (steps n st)) = false.
Proof.
  intros Hrun Hstop. unfold cmd_continue. rewrite Hrun.
  repeat split.
  - intros fuel Hf. rewrite (continue_loop_stops fuel st n Hstop).
    apply Nat.leb_le in Hf. now rewrite Hf.
  - intros fuel Hf. rewrite (continue_loop_stops fuel st n Hstop).
    apply Nat.leb_gt in Hf. now rewrite Hf.
  - now apply stops_at_not_running.
Qed.

(** X15.  In a running session, while no instruction halts or faults
    [continue] does not return: its loop is still going after any number of
    iterations. *)
Theorem X15_continue_does_not_return_without_a_stop (st : bfdb) (fuel : nat) :
  running (runtime st) = true ->
  runs_through st fuel ->
  cmd_continue fuel st = None.
Proof.
  intros Hrun H. unfold cmd_continue. rewrite Hrun.
  now apply continue_loop_runs_through.
Qed.

Lemma dbg_next_loop_add a : forall b st,
  dbg_next_loop (a + b) st false
  = (if snd (dbg_next_loop a st false)
     then dbg_next_loop a st false
     else dbg_next_loop b (fst (dbg_next_loop a st false)) false).
Proof.
  induction a as [|a IH]; intros b st; simpl.
  - reflexivity.
  - destruct (step st) as [st' r]. destruct r; simpl; [reflexivity | apply IH].
Qed.

(** X16.  Counts add up: [next (a + b)] is [next a] followed, unless the
    run stopped, by [next b]. *)
Theorem X16_next_counts_add_up (st : bfdb) (a b : Z) :
  0 <= a -> 0 <= b ->
  dbg_next st (a + b)
  = (if snd (dbg_next st a) then dbg_next st a
     else dbg_next (fst (dbg_next st a)) b).
Proof.
  intros Ha Hb. unfold dbg_next.
  replace (a + b <? 0) with false by (symmetry; apply Z.ltb_ge; lia).
  replace (a <? 0) with false by (symmetry; apply Z.ltb_ge; lia).
  replace (b <? 0) with false by (symmetry; apply Z.ltb_ge; lia).
  rewrite Z2Nat.inj_add by assumption. apply dbg_next_loop_add.
Qed.

(** ** Inspection *)

Lemma zrange_nine lo : zrange lo (lo + 8)
  = [lo; lo + 1; lo + 2; lo + 3; lo + 4; lo + 5; lo + 6; lo + 7; lo + 8].
Proof.
  unfold zrange. replace (lo + 8 - lo + 1) with 9 by lia.
  simpl. rewrite Z.add_0_r. reflexivity.
Qed.

(** The window of [dbg_print_tape] for a data pointer at least 4 cells from
    both ends of the tape. *)
Lemma tape_window_inside st :
  4 <= ptr (runtime st) <= DATA_SIZE - 5 ->
  dbg_print_tape st
  = emit st (PrintTape
               (map (fun p => (p =? ptr (runtime st), p, data (runtime st) p))
                    (zrange (ptr (runtime st) - 4) (ptr (runtime st) + 4)))).
Proof.
  intros H. unfold dbg_print_tape, DATA_SIZE in *.
  replace (ptr (runtime st) + 4) with (ptr (runtime st) - 4 + 8) by lia.
  rewrite zrange_nine. cbn [flat_map map app].
  repeat match goal with
         | |- context [(?a <? 0) || (?a >=? 65535)] =>
             replace ((a <? 0) || (a >=? 65535)) with false
               by (symmetry; apply orb_false_iff; split;
                   [apply Z.ltb_ge; lia | rewrite Z.geb_leb; apply Z.leb_gt; lia])
         end.
  cbn [app].
  replace (ptr (runtime st) - 4 + 1) with (ptr (runtime st) + -3) by lia.
  replace (ptr (runtime st) - 4 + 2) with (ptr (runtime st) + -2) by lia.
  replace (ptr (runtime st) - 4 + 3) with (ptr (runtime st) + -1) by lia.
  replace (ptr (runtime st) - 4 + 4) with (ptr (runtime st) + 0) by lia.
  replace (ptr (runtime st) - 4 + 5) with (ptr (runtime st) + 1) by lia.
  replace (ptr (runtime st) - 4 + 6) with (ptr (runtime st) + 2) by lia.
  replace (ptr (runtime st) - 4 + 7) with (ptr (runtime st) + 3) by lia.
  replace (ptr (runtime st) - 4 + 8) with (ptr (runtime st) + 4) by lia.
  replace (ptr (runtime st) - 4) with (ptr (runtime st) + -4) by lia.
  repeat match goal with
         | |- context [?a + ?d =? ?a] =>
             replace (a + d =? a) with (d =? 0)
               by (destruct (Z.eqb_spec d 0); symmetry;
                   [apply Z.eqb_eq | apply Z.eqb_neq]; lia)
         end.
  reflexivity.
Qed.

Lemma tape_window st :
  0 <= ptr (runtime st) < DATA_SIZE ->
  dbg_print_tape st
  = emit st (PrintTape
               (map (fun p => (p =? ptr (runtime st), p, data (runtime st) p))
                    (zrange (Z.max 0 (ptr (runtime st) - 4))
                            (Z.min (DATA_SIZE - 1) (ptr (runtime st) + 4))))).
Proof.
  intros H.
  destruct (Z_le_dec 4 (ptr (runtime st))) as [Hlo|Hlo];
    [destruct (Z_le_dec (ptr (runtime st)) (DATA_SIZE - 5)) as [Hhi|Hhi]|].
  - rewrite Z.max_r, Z.min_r by (unfold DATA_SIZE in *; lia).
    apply tape_window_inside. lia.
  - unfold DATA_SIZE in *.
    assert (Hp : ptr (runtime st) = 65531 \/ ptr (runtime st) = 65532
                 \/ ptr (runtime st) = 65533 \/ ptr (runtime st) = 65534) by lia.
    unfold dbg_print_tape, DATA_SIZE.
    destruct Hp as [Hp | [Hp | [Hp | Hp]]]; rewrite Hp; reflexivity.
  - assert (Hp : ptr (runtime st) = 0 \/ ptr (runtime st) = 1
                 \/ ptr (runtime st) = 2 \/ ptr (runtime st) = 3) by lia.
    unfold dbg_print_tape, DATA_SIZE.
    destruct Hp as [Hp | [Hp | [Hp | Hp]]]; rewrite Hp; reflexivity.
Qed.

(** X17.  In a running session [tape] shows the cells from 4 before to 4
    after the data pointer that lie on the tape, in increasing order and each
    with its value, and marks the cell at the data pointer and no other. *)
Theorem X17_tape_shows_the_clipped_window (st : bfdb) :
  reachable st -> running (runtime st) = true ->
  cmd_tape st
  = emit st (PrintTape
               (map (fun p => (p =? ptr (runtime st), p, data (runtime st) p))
                    (zrange (Z.max 0 (ptr (runtime st) - 4))
                            (Z.min (DATA_SIZE - 1) (ptr (runtime st) + 4))))).
Proof.
  intros Hreach Hrun. unfold cmd_tape. rewrite Hrun.
  apply tape_window. now apply reachable_on_tape.
Qed.

(** X18.  In a running session [print] without an argument always shows the
    cell at the data pointer: the range check of [dbg_print] never fails on
    it. *)
Theorem X18_print_shows_the_current_cell (st : bfdb) :
  reachable st -> running (runtime st) = true ->
  cmd_print st None = emit st (PrintCell (ptr (runtime st)) (cell st)).
Proof.
  intros Hreach Hrun. pose proof (reachable_on_tape st Hreach) as Ht.
  unfold on_tape in Ht. unfold cmd_print, dbg_print. rewrite Hrun.
  replace (ptr (runtime st) <? 0) with false by (symmetry; apply Z.ltb_ge; lia).
  replace (ptr (runtime st) >=? DATA_SIZE) with false
    by (symmetry; rewrite Z.geb_leb; apply Z.leb_gt; lia).
  reflexivity.
Qed.

(** X19.  The inspection commands [dataptr], [print] and [tape] write
    exactly one message and change nothing else, whatever their argument and
    whether the session is running or not. *)
Theorem X19_inspection_only_writes_a_message (st : bfdb) (index : option numeric) :
  (exists e, cmd_dataptr st = emit st e)
  /\ (exists e, cmd_print st index = emit st e)
  /\ (exists e, cmd_tape st = emit st e).
Proof.
  unfold cmd_dataptr, cmd_print, cmd_tape, dbg_print_dataptr, dbg_print_tape,
    dbg_print, to_int.
  destruct (running (runtime st)); repeat split; eauto.
  destruct index as [[i c]|]; simpl.
  - destruct c; simpl; eauto.
    destruct (i <? 0); simpl; eauto.
    destruct (i >=? DATA_SIZE); eauto.
  - split_ifs; eauto.
Qed.

(** ** Instructions that undo each other *)

Lemma ushort_inc_dec c : 0 <= c < 65536 -> ushort (ushort (c + 1) - 1) = c.
Proof.
  intros H. unfold ushort.
  destruct (Z.eq_dec c 65535) as [->|Hne]; [reflexivity|].
  rewrite (Z.mod_small (c + 1)) by lia.
  replace (c + 1 - 1) with c by lia. apply Z.mod_small. lia.
Qed.

Lemma ushort_dec_inc c : 0 <= c < 65536 -> ushort (ushort (c - 1) + 1) = c.
Proof.
  intros H. unfold ushort.
  destruct (Z.eq_dec c 0) as [->|Hne]; [reflexivity|].
  rewrite (Z.mod_small (c - 1)) by lia.
  replace (c - 1 + 1) with c by lia. apply Z.mod_small. lia.
Qed.

(** X20.  [+] and [-] undo each other in either order, also across the
    wrap-around between 65535 and 0: after both, every cell of the tape and
    the data pointer are as before, nothing is written or read, and neither
    instruction stops the run. *)
Theorem X20_add_and_sub_undo_each_other (st : bfdb) (add sub : instruction_t) :
  reachable st ->
  operator add = OP_ADD -> operator sub = OP_SUB ->
  let up_down := dbg_interpret (fst (dbg_interpret st add)) sub in
  let down_up := dbg_interpret (fst (dbg_interpret st sub)) add in
  (forall k, data (runtime (fst up_down)) k = data (runtime st) k)
  /\ (forall k, data (runtime (fst down_up)) k = data (runtime st) k)
  /\ ptr (runtime (fst up_down)) = ptr (runtime st)
  /\ ptr (runtime (fst down_up)) = ptr (runtime st)
  /\ output (fst up_down) = output st /\ output (fst down_up) = output st
  /\ stdin (fst up_down) = stdin st /\ stdin (fst down_up) = stdin st
  /\ snd (dbg_interpret st add) = false /\ snd up_down = false
  /\ snd (dbg_interpret st sub) = false /\ snd down_up = false.
Proof.
  intros Hreach Ha Hs.
  pose proof (session_cells_in_range st (reachable_session st Hreach)) as Hc.
  unfold dbg_interpret. rewrite Ha, Hs. simpl.
  repeat split; intros k; unfold cell; simpl;
    (destruct (Z.eq_dec k (ptr (runtime st))) as [->|Hne];
     [rewrite !upd_same | now rewrite !upd_other by exact Hne]).
  - apply ushort_inc_dec, Hc.
  - apply ushort_dec_inc, Hc.
Qed.

(** X21.  [>] and [<] undo each other: away from the right end of the tape
    [>] then [<], and away from the left end [<] then [>], leave the data
    pointer and the tape as before, and neither instruction faults. *)
Theorem X21_inc_and_dec_undo_each_other (st : bfdb) (inc dec : instruction_t) :
  reachable st ->
  operator inc = OP_INC -> operator dec = OP_DEC ->
  (ptr (runtime st) < DATA_SIZE - 1 ->
   let there_back := dbg_interpret (fst (dbg_interpret st inc)) dec in
   snd (dbg_interpret st inc) = false /\ snd there_back = false
   /\ ptr (runtime (fst there_back)) = ptr (runtime st)
   /\ data (runtime (fst there_back)) = data (runtime st))
  /\ (0 < ptr (runtime st) ->
      let back_there := dbg_interpret (fst (dbg_interpret st dec)) inc in
      snd (dbg_interpret st dec) = false /\ snd back_there = false
      /\ ptr (runtime (fst back_there)) = ptr (runtime st)
      /\ data (runtime (fst back_there)) = data (runtime st)).
Proof.
  intros Hreach Hi Hd.
  pose proof (reachable_on_tape st Hreach) as Ht. unfold on_tape, DATA_SIZE in *.
  split; intros Hp.
  - rewrite (dbg_interpret_inc st inc Hi).
    rewrite (uint_small (ptr (runtime st) + 1)) by lia.
    replace (ptr (runtime st) + 1 <? DATA_SIZE) with true
      by (symmetry; apply Z.ltb_lt; unfold DATA_SIZE; lia).
    cbn [next_pc fst snd]. rewrite (dbg_interpret_dec _ dec Hd). simpl.
    rewrite (uint_small (ptr (runtime st) + 1)) by lia.
    replace (ptr (runtime st) + 1 >? 0) with true
      by (symmetry; rewrite Z.gtb_ltb; apply Z.ltb_lt; lia).
    simpl. repeat split; auto.
    replace (ptr (runtime st) + 1 - 1) with (ptr (runtime st)) by lia.
    apply uint_small. lia.
  - rewrite (dbg_interpret_dec st dec Hd).
    replace (ptr (runtime st) >? 0) with true
      by (symmetry; rewrite Z.gtb_ltb; apply Z.ltb_lt; lia).
    cbn [next_pc fst snd]. rewrite (dbg_interpret_inc _ inc Hi).
    cbn -[uint ushort Z.add Z.sub Z.ltb Z.gtb DATA_SIZE].
    rewrite (uint_small (ptr (runtime st) - 1)) by lia.
    rewrite (uint_small (ptr (runtime st) - 1 + 1)) by lia.
    replace (ptr (runtime st) - 1 + 1 <? DATA_SIZE) with true
      by (symmetry; apply Z.ltb_lt; unfold DATA_SIZE; lia).
    cbn -[uint ushort Z.add Z.sub]. repeat split; auto.
    replace (ptr (runtime st) - 1 + 1) with (ptr (runtime st)) by lia.
    apply uint_small. lia.
Qed.

(** ** Programs without brackets *)

Lemma glyphs_are_glyphs src c : In c (glyphs src) -> is_glyph c = true.
Proof.
  induction src as [|a rest IH]; simpl; [contradiction|].
  destruct (is_glyph a) eqn:E; [|exact IH].
  intros [<- | H]; auto.
Qed.

Lemma glyph_at_in g i :
  0 <= i < Z.of_nat (List.length g) -> In (glyph_at g i) g.
Proof. intros H. unfold glyph_at. apply nth_In. lia. Qed.

Lemma nesting_bracket_free g d :
  (forall c, In c g -> c <> "["%char /\ c <> "]"%char) -> nesting g d = Some d.
Proof.
  induction g as [|a g IH]; intros H; simpl; [reflexivity|].
  destruct (H a (or_introl eq_refl)) as [Ho Hc].
  apply Ascii.eqb_neq in Ho, Hc. rewrite Ho, Hc.
  apply IH. intros c Hin. apply H. now right.
Qed.

Lemma simple_opcode c :
  is_glyph c = true -> c <> "["%char -> c <> "]"%char -> 1 <= opcode c <= 6.
Proof.
  unfold is_glyph, opcode. intros H Ho Hc.
  apply Ascii.eqb_neq in Ho, Hc. rewrite Ho, Hc in *.
  unfold OP_INC, OP_DEC, OP_ADD, OP_SUB, OP_OUT, OP_IN, OP_END.
  split_ifs; first [lia | simpl in H; discriminate].
Qed.

(** An instruction other than a jump and [OP_END] that does not fault moves
    the program counter to the next slot and leaves the program alone. *)
Lemma dbg_interpret_simple st i :
  1 <= operator i <= 6 ->
  0 <= pc (runtime st) < 65535 ->
  program (fst (dbg_interpret st i)) = program st
  /\ (snd (dbg_interpret st i) = false ->
      pc (runtime (fst (dbg_interpret st i))) = pc (runtime st) + 1).
Proof.
  intros Hop Hpc. split; [apply dbg_interpret_program|].
  destruct (dbg_interpret st i) as [st' r] eqn:E. simpl. intros ->.
  destruct (dbg_interpret_false_pc _ _ _ E) as [-> _].
  unfold pc_of_instruction, jump_taken, OP_JMP, OP_RET.
  replace (operator i =? 7) with false by (symmetry; apply Z.eqb_neq; lia).
  replace (operator i =? 8) with false by (symmetry; apply Z.eqb_neq; lia).
  simpl. apply ushort_small. lia.
Qed.

(** A run through slots that hold neither a jump nor [OP_END], up to a slot
    that holds [OP_END], stops within the number of slots left. *)
Lemma straight_line_stops (last : Z) (m : nat) : forall st,
  last < PROGRAM_SIZE ->
  (forall i, 0 <= i < last -> 1 <= operator (instructions (program st) i) <= 6) ->
  operator (instructions (program st) last) = OP_END ->
  0 <= pc (runtime st) ->
  pc (runtime st) = last - Z.of_nat m ->
  exists n, (1 <= n <= m + 1)%nat /\ stops_at st n.
Proof.
  induction m as [|m IH]; intros st Hlast Hops Hend Hpc0 Hpc.
  - exists 1%nat. split; [lia|]. apply stops_at_one. unfold step.
    replace (pc (runtime st)) with last by lia.
    unfold dbg_interpret. now rewrite Hend.
  - destruct (snd (step st)) eqn:Es.
    + exists 1%nat. split; [lia|]. now apply stops_at_one.
    + assert (Hi : 0 <= pc (runtime st) < last) by lia.
      destruct (dbg_interpret_simple st (instructions (program st) (pc (runtime st)))
                  (Hops _ Hi) ltac:(unfold PROGRAM_SIZE in *; lia)) as [Hprog Hnext].
      fold (step st) in Hprog, Hnext. specialize (Hnext Es).
      destruct (IH (fst (step st))) as (n & Hn & Hstop); auto.
      * now rewrite Hprog.
      * now rewrite Hprog.
      * lia.
      * lia.
      * exists (S n). split; [lia|]. now apply stops_at_succ.
Qed.

(** X22.  A program without brackets always terminates: loaded on an empty
    bracket stack and run from the start, it halts or faults within as many
    instructions as it has, [OP_END] included, so [continue] returns and
    leaves the session not running. *)
Theorem X22_bracket_free_programs_terminate
    (fs : filesystem) (st : bfdb) (file_name fp : string) :
  fs file_name = Some fp ->
  esp (program st) = 0 ->
  bracket_free fp ->
  glyph_count fp < PROGRAM_SIZE ->
  let started := cmd_run (dbg_load fs st file_name) in
  running (runtime started) = true
  /\ exists n,
      (1 <= n <= Z.to_nat (glyph_count fp) + 1)%nat
      /\ stops_at started n
      /\ cmd_continue (Z.to_nat (glyph_count fp) + 1) started = Some (steps n started)
      /\ running (runtime (steps n started)) = false.
Proof.
  intros Hfs Hesp Hfree Hfit started.
  pose proof (glyph_count_nonneg fp) as Hnn.
  assert (Hok : c_ok (compile fp (program st)) = true).
  { unfold compile. apply compile_loop_accepts.
    - unfold PROGRAM_SIZE. lia.
    - rewrite Hesp. unfold STACK_SIZE. lia.
    - split; [lia|]. rewrite Hesp. now apply nesting_bracket_free. }
  pose proof (dbg_load_installs fs st file_name) as Hinst.
  rewrite Hfs in Hinst. destruct Hinst as [Hprog Hloaded]. rewrite Hok in Hloaded.
  assert (Hstarted : started = dbg_run (dbg_load fs st file_name))
    by (unfold started, cmd_run; now rewrite Hloaded).
  assert (Hrun : running (runtime started) = true) by (now rewrite Hstarted).
  split; [exact Hrun|].
  pose proof (compile_loop_compiled_upto fp [] (program st) 1 1
                (compiled_upto_nil _ Hesp)
                ltac:(simpl; unfold PROGRAM_SIZE; lia) Hok) as Hinv.
  simpl in Hinv. fold (compile fp (program st)) in Hinv.
  pose proof Hok as Hshape. unfold compile in Hshape.
  apply compile_loop_success in Hshape; [|unfold PROGRAM_SIZE; lia].
  destruct Hshape as (_ & _ & Hend & _). simpl in Hend.
  fold (compile fp (program st)) in Hend.
  destruct (straight_line_stops (glyph_count fp) (Z.to_nat (glyph_count fp)) started)
    as (n & Hn & Hstop).
  - exact Hfit.
  - intros i Hi. rewrite Hstarted. simpl. rewrite Hprog.
    assert (Hin : In (glyph_at (glyphs fp) i) (glyphs fp))
      by (apply glyph_at_in; exact Hi).
    destruct (Hfree _ Hin) as [Ho Hc].
    rewrite (upto_operators _ _ Hinv i Hi Ho).
    apply simple_opcode; auto. eapply glyphs_are_glyphs; eassumption.
  - rewrite Hstarted. simpl. rewrite Hprog. exact Hend.
  - rewrite Hstarted. simpl. lia.
  - rewrite Hstarted. simpl. lia.
  - exists n. split; [exact Hn|]. split; [exact Hstop|]. split.
    + unfold cmd_continue. rewrite Hrun.
      rewrite (continue_loop_stops _ _ _ Hstop).
      replace (n <=? Z.to_nat (glyph_count fp) + 1)%nat with true
        by (symmetry; apply Nat.leb_le; lia).
      reflexivity.
    + now apply stops_at_not_running.
Qed.

Lemma opcode_text st c :
  is_glyph c = true -> c <> "["%char ->
  operator (instructions (program st) (pc (runtime st))) = opcode c ->
  snd (dbg_print_op st) = String c EmptyString.
Proof.
  unfold dbg_print_op, is_glyph, opcode. intros Hg Ho ->. simpl.
  apply Ascii.eqb_neq in Ho. rewrite Ho in *.
  repeat match goal with
         | |- context [Ascii.eqb c ?x] =>
             destruct (Ascii.eqb c x) eqn:?;
             [match goal with E : Ascii.eqb c x = true |- _ =>
                apply Ascii.eqb_eq in E; subst c; reflexivity end|]
         end.
  simpl in Hg. discriminate.
Qed.

(** X23.  What the prompt shows is the source: in the session started on a
    program accepted from an empty bracket stack, after [jump i + 1] the
    debugger shows index [i + 1] and the [i]-th glyph of the source (counted
    from 0) for every glyph other than ['['], and after a jump to the last
    instruction it shows "EOF". *)
Theorem X23_prompt_shows_the_source_glyph
    (fs : filesystem) (st : bfdb) (file_name fp : string) (i : Z) :
  fs file_name = Some fp ->
  esp (program st) = 0 ->
  loaded (dbg_load fs st file_name) = true ->
  let started := cmd_run (dbg_load fs st file_name) in
  (0 <= i < glyph_count fp -> glyph_at (glyphs fp) i <> "["%char ->
   dbg_print_op (dbg_jump started (i + 1))
   = (i + 1, String (glyph_at (glyphs fp) i) EmptyString))
  /\ dbg_print_op (dbg_jump started (glyph_count fp + 1))
     = (glyph_count fp + 1, "EOF"%string).
Proof.
  intros Hfs Hesp Hloaded started.
  pose proof (glyph_count_nonneg fp) as Hnn.
  pose proof (dbg_load_installs fs st file_name) as Hinst.
  rewrite Hfs in Hinst. destruct Hinst as [Hprog Hl]. rewrite Hloaded in Hl.
  symmetry in Hl. rename Hl into Hok.
  assert (Hstarted : started = dbg_run (dbg_load fs st file_name))
    by (unfold started, cmd_run; now rewrite Hloaded).
  pose proof (compile_loop_compiled_upto fp [] (program st) 1 1
                (compiled_upto_nil _ Hesp)
                ltac:(simpl; unfold PROGRAM_SIZE; lia) Hok) as Hinv.
  simpl in Hinv. fold (compile fp (program st)) in Hinv.
  pose proof Hok as Hshape. unfold compile in Hshape.
  apply compile_loop_success in Hshape; [|unfold PROGRAM_SIZE; lia].
  destruct Hshape as (Hfit & Hcount & Hend & _). simpl in Hfit, Hcount, Hend.
  fold (compile fp (program st)) in Hcount, Hend.
  assert (Hjump : forall k, 0 <= k <= glyph_count fp ->
            program (dbg_jump started (k + 1)) = c_prog (compile fp (program st))
            /\ pc (runtime (dbg_jump started (k + 1))) = k).
  { intros k Hk. unfold dbg_jump. rewrite Hstarted. simpl. rewrite Hprog, Hcount.
    replace (k + 1 <? 1) with false by (symmetry; apply Z.ltb_ge; lia).
    replace (k + 1 >? glyph_count fp + 1) with false
      by (symmetry; rewrite Z.gtb_ltb; apply Z.ltb_ge; lia).
    simpl. split; [exact Hprog|].
    replace (k + 1 - 1) with k by lia.
    apply ushort_small. unfold PROGRAM_SIZE in *. lia. }
  split.
  - intros Hi Hg. destruct (Hjump i ltac:(lia)) as [Hp Hpc].
    assert (Hfst : fst (dbg_print_op (dbg_jump started (i + 1))) = i + 1)
      by (unfold dbg_print_op; simpl; now rewrite Hpc).
    assert (Hsnd : snd (dbg_print_op (dbg_jump started (i + 1)))
                   = String (glyph_at (glyphs fp) i) EmptyString).
    { apply opcode_text; auto.
      - eapply glyphs_are_glyphs. apply glyph_at_in. exact Hi.
      - rewrite Hp, Hpc. now apply (upto_operators _ _ Hinv). }
    destruct (dbg_print_op (dbg_jump started (i + 1))). simpl in *. congruence.
  - destruct (Hjump (glyph_count fp) ltac:(lia)) as [Hp Hpc].
    unfold dbg_print_op. rewrite Hp, Hpc, Hend. reflexivity.
Qed.

(** ** Loading again *)

(** X24.  After a successful load the next file is judged as in a debugger
    just started: [compile] gives the same verdict and the same report on the
    loaded program as on the initial one. *)
Theorem X24_after_a_successful_load_files_are_judged_afresh (st : bfdb) (fp : string) :
  reachable st -> loaded st = true ->
  c_ok (compile fp (program st)) = c_ok (compile fp program_init)
  /\ c_log (compile fp (program st)) = c_log (compile fp program_init).
Proof.
  intros Hreach Hloaded.
  destruct (session_program_ended st (reachable_session st Hreach) Hloaded)
    as (_ & _ & Hesp).
  destruct (compile_loop_esp fp (program st) program_init 0 1 1) as (H1 & H2 & _);
    [rewrite Hesp; reflexivity | auto].
Qed.

(** ** Input and output *)

(** X25.  [,] followed by [.] echoes one byte of the input: the byte is
    taken off the input, stored in the current cell and written out.  At the
    end of the input the cell gets 65535 and the byte written is 255. *)
Theorem X25_input_then_output_echoes (st : bfdb) (input output_ : instruction_t) :
  operator input = OP_IN -> operator output_ = OP_OUT ->
  let echoed := fst (dbg_interpret (fst (dbg_interpret st input)) output_) in
  (forall b rest, stdin st = b :: rest -> 0 <= b < 256 ->
     output echoed = output st ++ [Putchar b]
     /\ stdin echoed = rest
     /\ cell echoed = b)
  /\ (stdin st = [] ->
      output echoed = output st ++ [Putchar 255]
      /\ stdin echoed = []
      /\ cell echoed = 65535).
Proof.
  intros Hi Ho echoed. unfold echoed, dbg_interpret. rewrite Hi, Ho. simpl.
  unfold getchar. split.
  - intros b rest Hs Hb. rewrite Hs. unfold cell. simpl. rewrite !upd_same.
    assert (Hu : ushort (uint b) = b).
    { rewrite uint_small by lia. apply ushort_small. lia. }
    rewrite Hu. rewrite Z.mod_small by lia. auto.
  - intros Hs. rewrite Hs. unfold cell. simpl. rewrite !upd_same. auto.
Qed.

(** ** The oldest revisions *)

Lemma oldest_compile_char_esp c prog1 prog2 pc line col :
  esp prog1 = esp prog2 ->
  match Oldest.compile_char c prog1 pc, compile_char c prog2 pc line col with
  | Oldest.Next p1 pc1, Next p2 pc2 => pc1 = pc2 /\ esp p1 = esp p2
  | Oldest.ReturnFalse _, ReturnFalse _ log => reports_unmatched_close log = false
  | Oldest.ReturnTrue _, ReturnFalse _ log => reports_unmatched_close log = true
  | _, _ => False
  end.
Proof.
  intros E. unfold Oldest.compile_char, compile_char, pop. simpl. rewrite E.
  split_ifs; simpl; rewrite ?E; auto.
Qed.

Lemma oldest_compile_loop src : forall prog1 prog2 pc line col,
  esp prog1 = esp prog2 ->
  fst (Oldest.compile_loop src prog1 pc)
  = c_ok (compile_loop src prog2 pc line col)
    || reports_unmatched_close (c_log (compile_loop src prog2 pc line col)).
Proof.
  assert (Hfin : forall prog1 prog2 pc line col,
             esp prog1 = esp prog2 ->
             fst (Oldest.compile_finish prog1 pc)
             = c_ok (compile_finish prog2 pc line col)
               || reports_unmatched_close (c_log (compile_finish prog2 pc line col))).
  { intros prog1 prog2 pc line col E. unfold Oldest.compile_finish, compile_finish.
    rewrite E. destruct (esp prog2 =? 0); destruct (pc =? PROGRAM_SIZE); reflexivity. }
  induction src as [|a rest IH]; intros prog1 prog2 pc line col E; simpl.
  - now apply Hfin.
  - destruct (pc <? PROGRAM_SIZE); [|now apply Hfin].
    pose proof (oldest_compile_char_esp a prog1 prog2 pc line col E) as Hc.
    destruct (Oldest.compile_char a prog1 pc) as [p1 pc1|p1|p1];
      destruct (compile_char a prog2 pc line col) as [p2 pc2|p2 log];
      try contradiction; simpl.
    + destruct Hc as [-> Hesp]. destruct (Ascii.eqb a "010"); now apply IH.
    + now rewrite Hc.
    + now rewrite Hc.
Qed.

(** X26.  The [compile] of the two oldest revisions accepts exactly the
    sources that the latest [compile] accepts and, in addition, those that
    the latest refuses with "unmatched ']'": there the old [compile] returns
    [true] at the offending bracket. *)
Theorem X26_oldest_compile_accepts_an_unmatched_close_bracket
    (fp : string) (prog1 prog2 : program_t) :
  esp prog1 = esp prog2 ->
  fst (Oldest.compile fp prog1)
  = c_ok (compile fp prog2) || reports_unmatched_close (c_log (compile fp prog2)).
Proof. apply oldest_compile_loop. Qed.

(** ** Instances of the further properties *)

Lemma demo_running_reachable : reachable demo_running.
Proof.
  exact (reach_run _ (reach_file example_files _ (Some "demo.bf"%string) (reach_init []))).
Defined.

Lemma spin_running_reachable : reachable spin_running.
Proof. unfold spin_running. apply reach_run, reach_file, reach_init. Defined.

Lemma X10_witness :
  reachable (fst (step demo_running))
  /\ 0 <= data (runtime (fst (step demo_running))) 0 < 65536.
Proof.
  assert (H : reachable (fst (step demo_running)))
    by (apply reach_step, demo_running_reachable).
  split; [exact H|]. exact (X10_cells_are_unsigned_shorts _ 0 H).
Defined.

Lemma X11_witness :
  reachable demo_running /\ running (runtime demo_running) = true
  /\ loaded demo_running = true.
Proof.
  split; [exact demo_running_reachable|]. split; [reflexivity|].
  exact (X11_running_session_has_a_program _ demo_running_reachable eq_refl).
Defined.

Lemma X12_witness :
  reachable demo_running /\ loaded demo_running = true
  /\ operator (instructions (program demo_running)
                 (instr_count (program demo_running) - 1)) = OP_END.
Proof.
  split; [exact demo_running_reachable|]. split; [reflexivity|].
  destruct (X12_loaded_program_ends_with_op_end _ demo_running_reachable eq_refl)
    as (_ & Hend & _).
  exact Hend.
Defined.

Lemma X13_witness :
  reachable demo_running /\ running (runtime demo_running) = true
  /\ running (runtime (cmd_next
                         (cmd_jump demo_running
                            (Some {| as_int := instr_count (program demo_running);
                                     converted := true |})) None)) = false.
Proof.
  split; [exact demo_running_reachable|]. split; [reflexivity|].
  rewrite (X13_jump_to_the_end_then_next_exits _ demo_running_reachable eq_refl).
  reflexivity.
Defined.

Lemma X14_witness :
  running (runtime demo_running) = true
  /\ stops_at demo_running 8
  /\ cmd_continue 20 demo_running = Some (steps 8 demo_running).
Proof.
  assert (Hstop : stops_at demo_running 8).
  { split; [lia|]. split; [reflexivity|].
    intros m Hm. do 7 (destruct m as [|m]; [reflexivity|]). simpl in Hm. lia. }
  split; [reflexivity|]. split; [exact Hstop|].
  destruct (X14_continue_runs_to_the_first_stop demo_running 8 eq_refl Hstop)
    as (Hsome & _).
  apply Hsome. lia.
Defined.

Lemma X15_witness :
  running (runtime spin_running) = true
  /\ runs_through spin_running 12
  /\ cmd_continue 12 spin_running = None.
Proof.
  assert (Hrun : runs_through spin_running 12).
  { intros m Hm. do 12 (destruct m as [|m]; [reflexivity|]). lia. }
  split; [reflexivity|]. split; [exact Hrun|].
  exact (X15_continue_does_not_return_without_a_stop spin_running 12 eq_refl Hrun).
Defined.

Lemma X16_witness :
  0 <= 2 /\ 0 <= 3
  /\ dbg_next demo_running (2 + 3)
     = (if snd (dbg_next demo_running 2) then dbg_next demo_running 2
        else dbg_next (fst (dbg_next demo_running 2)) 3).
Proof.
  assert (H2 : 0 <= 2) by lia. assert (H3 : 0 <= 3) by lia.
  split; [exact H2|]. split; [exact H3|].
  exact (X16_next_counts_add_up demo_running 2 3 H2 H3).
Defined.

Lemma X17_witness :
  reachable demo_running /\ running (runtime demo_running) = true
  /\ output (cmd_tape demo_running)
     = output demo_running
       ++ [PrintTape [(true, 0, 0); (false, 1, 0); (false, 2, 0); (false, 3, 0);
                      (false, 4, 0)]].
Proof.
  split; [exact demo_running_reachable|]. split; [reflexivity|].
  rewrite (X17_tape_shows_the_clipped_window _ demo_running_reachable eq_refl).
  reflexivity.
Defined.

Lemma X18_witness :
  reachable demo_running /\ running (runtime demo_running) = true
  /\ output (cmd_print demo_running None) = output demo_running ++ [PrintCell 0 0].
Proof.
  split; [exact demo_running_reachable|]. split; [reflexivity|].
  rewrite (X18_print_shows_the_current_cell _ demo_running_reachable eq_refl).
  reflexivity.
Defined.

Lemma X20_witness :
  reachable demo_running
  /\ data (runtime (fst (dbg_interpret
                          (fst (dbg_interpret demo_running
                                  {| operator := OP_SUB; operand := 0 |}))
                          {| operator := OP_ADD; operand := 0 |}))) 0
     = data (runtime demo_running) 0.
Proof.
  split; [exact demo_running_reachable|].
  destruct (X20_add_and_sub_undo_each_other demo_running
              {| operator := OP_ADD; operand := 0 |}
              {| operator := OP_SUB; operand := 0 |}
              demo_running_reachable eq_refl eq_refl) as (_ & Hdown_up & _).
  exact (Hdown_up 0).
Defined.

Lemma X21_witness :
  reachable demo_running
  /\ ptr (runtime demo_running) < DATA_SIZE - 1
  /\ ptr (runtime (fst (dbg_interpret
                         (fst (dbg_interpret demo_running
                                 {| operator := OP_INC; operand := 0 |}))
                         {| operator := OP_DEC; operand := 0 |})))
     = ptr (runtime demo_running).
Proof.
  assert (Hp : ptr (runtime demo_running) < DATA_SIZE - 1) by reflexivity.
  split; [exact demo_running_reachable|]. split; [exact Hp|].
  destruct (X21_inc_and_dec_undo_each_other demo_running
              {| operator := OP_INC; operand := 0 |}
              {| operator := OP_DEC; operand := 0 |}
              demo_running_reachable eq_refl eq_refl) as [Hthere _].
  destruct (Hthere Hp) as (_ & _ & Hptr & _). exact Hptr.
Defined.

Lemma demo_bracket_free : bracket_free "++>+<-.".
Proof.
  intros c Hin. simpl in Hin.
  repeat (destruct Hin as [<- | Hin]; [split; discriminate|]). contradiction.
Defined.

Lemma X22_witness :
  example_files "demo.bf"%string = Some "++>+<-."%string
  /\ esp (program (bfdb_init [])) = 0
  /\ bracket_free "++>+<-."
  /\ glyph_count "++>+<-." < PROGRAM_SIZE
  /\ running (runtime demo_running) = true.
Proof.
  assert (H1 : example_files "demo.bf"%string = Some "++>+<-."%string) by reflexivity.
  assert (H2 : esp (program (bfdb_init [])) = 0) by reflexivity.
  assert (H4 : glyph_count "++>+<-." < PROGRAM_SIZE) by reflexivity.
  split; [exact H1|]. split; [exact H2|]. split; [exact demo_bracket_free|].
  split; [exact H4|].
  destruct (X22_bracket_free_programs_terminate example_files (bfdb_init [])
              "demo.bf" "++>+<-." H1 H2 demo_bracket_free H4) as [Hrun _].
  exact Hrun.
Defined.

Lemma X23_witness :
  example_files "demo.bf"%string = Some "++>+<-."%string
  /\ esp (program (bfdb_init [])) = 0
  /\ loaded (dbg_load example_files (bfdb_init []) "demo.bf") = true
  /\ 0 <= 2 < glyph_count "++>+<-."
  /\ dbg_print_op (dbg_jump demo_running (2 + 1)) = (2 + 1, ">"%string).
Proof.
  assert (H1 : example_files "demo.bf"%string = Some "++>+<-."%string) by reflexivity.
  assert (H2 : esp (program (bfdb_init [])) = 0) by reflexivity.
  assert (H3 : loaded (dbg_load example_files (bfdb_init []) "demo.bf") = true)
    by reflexivity.
  assert (H4 : 0 <= 2 < glyph_count "++>+<-.")
    by (vm_compute; split; [discriminate | reflexivity]).
  split; [exact H1|]. split; [exact H2|]. split; [exact H3|]. split; [exact H4|].
  destruct (X23_prompt_shows_the_source_glyph example_files (bfdb_init [])
              "demo.bf" "++>+<-." 2 H1 H2 H3) as [Hshow _].
  apply Hshow; [exact H4 | discriminate].
Defined.

Lemma X24_witness :
  reachable demo_running /\ loaded demo_running = true
  /\ c_log (compile "]" (program demo_running)) = [CompileError 1 1 UnmatchedClose].
Proof.
  split; [exact demo_running_reachable|]. split; [reflexivity|].
  destruct (X24_after_a_successful_load_files_are_judged_afresh demo_running "]"
              demo_running_reachable eq_refl) as [_ Hlog].
  rewrite Hlog. reflexivity.
Defined.

Lemma X25_witness :
  stdin (bfdb_init [65]) = [65] /\ 0 <= 65 < 256
  /\ output (fst (dbg_interpret
                    (fst (dbg_interpret (bfdb_init [65])
                            {| operator := OP_IN; operand := 0 |}))
                    {| operator := OP_OUT; operand := 0 |}))
     = output (bfdb_init [65]) ++ [Putchar 65].
Proof.
  assert (Hb : 0 <= 65 < 256) by lia.
  split; [reflexivity|]. split; [exact Hb|].
  destruct (X25_input_then_output_echoes (bfdb_init [65])
              {| operator := OP_IN; operand := 0 |}
              {| operator := OP_OUT; operand := 0 |} eq_refl eq_refl) as [Hecho _].
  destruct (Hecho 65 [] eq_refl Hb) as [Hout _]. exact Hout.
Defined.

Lemma X26_witness :
  esp program_init = esp program_init
  /\ fst (Oldest.compile "+]" program_init) = true.
Proof.
  split; [reflexivity|].
  rewrite (X26_oldest_compile_accepts_an_unmatched_close_bracket "+]"
             program_init program_init eq_refl).
  reflexivity.
Defined.

(** ** The revision [bfdb.c], compared *)

Lemma bfdb_c_compile_char_esp c prog1 prog2 pc line col :
  esp prog1 = esp prog2 ->
  match BfdbC.compile_char c prog1 pc, compile_char c prog2 pc line col with
  | BfdbC.Next p1 pc1, Next p2 pc2 => pc1 = pc2 /\ esp p1 = esp p2
  | BfdbC.ReturnFalse p1, ReturnFalse p2 _ => esp p1 = esp p2
  | _, _ => False
  end.
Proof.
  intros E. unfold BfdbC.compile_char, compile_char, pop. simpl. rewrite E.
  split_ifs; simpl; rewrite ?E; auto.
Qed.

Lemma bfdb_c_compile_loop_esp src : forall prog1 prog2 pc line col,
  esp prog1 = esp prog2 ->
  c_ok (BfdbC.compile_loop src prog1 pc) = c_ok (compile_loop src prog2 pc line col)
  /\ esp (c_prog (BfdbC.compile_loop src prog1 pc))
     = esp (c_prog (compile_loop src prog2 pc line col)).
Proof.
  assert (Hfin : forall prog1 prog2 pc line col,
             esp prog1 = esp prog2 ->
             c_ok (BfdbC.compile_finish prog1 pc) = c_ok (compile_finish prog2 pc line col)
             /\ esp (c_prog (BfdbC.compile_finish prog1 pc))
                = esp (c_prog (compile_finish prog2 pc line col))).
  { intros prog1 prog2 pc line col E. unfold BfdbC.compile_finish, compile_finish.
    rewrite E. destruct (esp prog2 =? 0); destruct (pc =? PROGRAM_SIZE); simpl; auto. }
  induction src as [|a rest IH]; intros prog1 prog2 pc line col E; simpl.
  - now apply Hfin.
  - destruct (pc <? PROGRAM_SIZE); [|now apply Hfin].
    pose proof (bfdb_c_compile_char_esp a prog1 prog2 pc line col E) as Hc.
    destruct (BfdbC.compile_char a prog1 pc) as [p1 pc1|p1];
      destruct (compile_char a prog2 pc line col) as [p2 pc2|p2 log];
      try contradiction; simpl.
    + destruct Hc as [-> Hesp]. destruct (Ascii.eqb a "010"); now apply IH.
    + auto.
Qed.

(** X27.  The [compile] of [bfdb.c] and the latest [compile] agree on every
    source: started with the same stack pointer they accept or refuse alike,
    leave the same stack pointer, and record the same instruction count for
    an accepted source. *)
Theorem X27_bfdb_c_compile_accepts_the_same_sources
    (fp : string) (prog1 prog2 : program_t) :
  esp prog1 = esp prog2 ->
  c_ok (BfdbC.compile fp prog1) = c_ok (compile fp prog2)
  /\ esp (c_prog (BfdbC.compile fp prog1)) = esp (c_prog (compile fp prog2))
  /\ (c_ok (compile fp prog2) = true ->
      instr_count (c_prog (BfdbC.compile fp prog1))
      = instr_count (c_prog (compile fp prog2))).
Proof.
  intros E. unfold BfdbC.compile, compile.
  destruct (bfdb_c_compile_loop_esp fp prog1 prog2 0 1 1 E) as [Hok Hesp].
  split; [exact Hok|]. split; [exact Hesp|].
  intros H. pose proof H as H'. rewrite <- Hok in H'.
  apply compile_loop_success in H; [|unfold PROGRAM_SIZE; lia].
  apply bfdb_c_compile_loop_success in H'; [|unfold PROGRAM_SIZE; lia].
  destruct H as (_ & -> & _). destruct H' as (_ & -> & _). reflexivity.
Qed.

Lemma X27_witness :
  esp program_init = esp (c_prog (compile "+[-]" program_init))
  /\ c_ok (BfdbC.compile "[]" program_init)
     = c_ok (compile "[]" (c_prog (compile "+[-]" program_init))).
Proof.
  assert (H : esp program_init = esp (c_prog (compile "+[-]" program_init)))
    by reflexivity.
  split; [exact H|].
  destruct (X27_bfdb_c_compile_accepts_the_same_sources "[]" _ _ H) as [Hok _].
  exact Hok.
Defined.

(** ** What an instruction writes *)

(** X28.  In every state of a session, an instruction that stops the run
    writes exactly one message and changes nothing but the running flag:
    [OP_END] writes the normal exit, and a fault is reported with the index
    of the faulting instruction, its operator, the data pointer and the
    current cell, which is [<] at data pointer 0 or [>] at data pointer
    [DATA_SIZE - 1]. *)
Theorem X28_a_stop_writes_one_message (st : bfdb) :
  reachable st ->
  snd (step st) = true ->
  let op := operator (instructions (program st) (pc (runtime st))) in
  let stopped e := set_running (emit st e) false in
  (op = OP_END /\ fst (step st) = stopped ExitedNormally)
  \/ (op = OP_DEC /\ ptr (runtime st) = 0
      /\ fst (step st)
         = stopped (RuntimeError DecBelowZero (pc (runtime st) + 1) OP_DEC 0
                      (data (runtime st) 0)))
  \/ (op = OP_INC /\ ptr (runtime st) = DATA_SIZE - 1
      /\ fst (step st)
         = stopped (RuntimeError IncOutOfRange (pc (runtime st) + 1) OP_INC
                      (DATA_SIZE - 1) (data (runtime st) (DATA_SIZE - 1)))).
Proof.
  intros Hreach Hstop op stopped.
  pose proof (reachable_on_tape st Hreach) as Ht. unfold on_tape, DATA_SIZE in Ht.
  unfold step in *. fold op.
  destruct (dbg_interpret st (instructions (program st) (pc (runtime st))))
    as [st' r] eqn:E.
  simpl in Hstop. subst r. simpl.
  destruct (dbg_interpret_true _ _ _ E) as [[Hop ->] | [[Hop ->] | [Hop ->]]];
    fold op in Hop.
  - left. auto.
  - right. right.
    rewrite (dbg_interpret_inc _ _ Hop) in E.
    rewrite uint_small in E by lia.
    destruct (ptr (runtime st) + 1 <? DATA_SIZE) eqn:El; [discriminate|].
    apply Z.ltb_ge in El. unfold DATA_SIZE in *.
    assert (Hp : ptr (runtime st) = 65534) by lia.
    split; [exact Hop|]. split; [exact Hp|].
    unfold dbg_runtime_error, stopped, cell. fold op. rewrite Hop, Hp. reflexivity.
  - right. left.
    rewrite (dbg_interpret_dec _ _ Hop) in E.
    destruct (ptr (runtime st) >? 0) eqn:El; [discriminate|].
    rewrite Z.gtb_ltb in El. apply Z.ltb_ge in El.
    assert (Hp : ptr (runtime st) = 0) by lia.
    split; [exact Hop|]. split; [exact Hp|].
    unfold dbg_runtime_error, stopped, cell. fold op. rewrite Hop, Hp. reflexivity.
Qed.

(** X29.  An instruction that does not stop the run writes nothing, except
    [.], which writes one byte, the current cell modulo 256; and only [,]
    takes anything from the input, at most one byte. *)
Theorem X29_only_output_writes (st : bfdb) (i : instruction_t) :
  snd (dbg_interpret st i) = false ->
  (operator i = OP_OUT ->
   output (fst (dbg_interpret st i)) = output st ++ [Putchar (cell st mod 256)]
   /\ 0 <= cell st mod 256 < 256)
  /\ (operator i <> OP_OUT -> output (fst (dbg_interpret st i)) = output st)
  /\ (operator i <> OP_IN -> stdin (fst (dbg_interpret st i)) = stdin st)
  /\ (operator i = OP_IN -> stdin (fst (dbg_interpret st i)) = tl (stdin st)).
Proof.
  unfold dbg_interpret, next_pc.
  assert (Hout : output (fst (getchar st)) = output st)
    by (unfold getchar; now destruct (stdin st)).
  assert (Hin : stdin (fst (getchar st)) = tl (stdin st))
    by (unfold getchar; destruct (stdin st) eqn:E; simpl; [exact E | reflexivity]).
  destruct (getchar st) as [st1 c]. simpl in Hout, Hin.
  split_ifs; op_facts; simpl; intros Hs; try discriminate;
    repeat split; intros; try congruence;
    try (apply Z.mod_pos_bound; lia);
    exfalso; unfold OP_END, OP_INC, OP_DEC, OP_ADD, OP_SUB, OP_OUT, OP_IN, OP_JMP,
      OP_RET in *; congruence.
Qed.

Lemma X28_witness :
  reachable (cmd_run (fresh_load "under.bf"))
  /\ snd (step (cmd_run (fresh_load "under.bf"))) = true
  /\ operator (instructions (program (cmd_run (fresh_load "under.bf")))
                 (pc (runtime (cmd_run (fresh_load "under.bf"))))) <> OP_END
  /\ operator (instructions (program (cmd_run (fresh_load "under.bf")))
                 (pc (runtime (cmd_run (fresh_load "under.bf"))))) <> OP_INC
  /\ ptr (runtime (cmd_run (fresh_load "under.bf"))) = 0.
Proof.
  assert (Hreach : reachable (cmd_run (fresh_load "under.bf")))
    by exact (reach_run _ (reach_file example_files _ (Some "under.bf"%string)
                             (reach_init []))).
  assert (Hstop : snd (step (cmd_run (fresh_load "under.bf"))) = true) by reflexivity.
  assert (Hne : operator (instructions (program (cmd_run (fresh_load "under.bf")))
                            (pc (runtime (cmd_run (fresh_load "under.bf"))))) <> OP_END)
    by (vm_compute; discriminate).
  assert (Hni : operator (instructions (program (cmd_run (fresh_load "under.bf")))
                            (pc (runtime (cmd_run (fresh_load "under.bf"))))) <> OP_INC)
    by (vm_compute; discriminate).
  split; [exact Hreach|]. split; [exact Hstop|]. split; [exact Hne|]. split; [exact Hni|].
  destruct (X28_a_stop_writes_one_message _ Hreach Hstop)
    as [[Hop _] | [(_ & Hp & _) | (Hop & _)]].
  - contradiction.
  - exact Hp.
  - contradiction.
Defined.

Lemma X29_witness :
  snd (dbg_interpret demo_running {| operator := OP_OUT; operand := 0 |}) = false
  /\ output (fst (dbg_interpret demo_running {| operator := OP_OUT; operand := 0 |}))
     = output demo_running ++ [Putchar (cell demo_running mod 256)].
Proof.
  assert (H : snd (dbg_interpret demo_running {| operator := OP_OUT; operand := 0 |}) = false)
    by reflexivity.
  split; [exact H|].
  destruct (X29_only_output_writes demo_running {| operator := OP_OUT; operand := 0 |} H)
    as [Hout _].
  destruct (Hout eq_refl) as [Heq _]. exact Heq.
Defined.
